(** * react-native-validated-form: the field registry, the buffered state
      hook and the scroll coordinator

    The definitions follow the TypeScript sources:
    - [hooks/useBufferedState.ts]  -> [Module BufferedState]
    - [utils] ([isEmpty], [getScrollableNode], [scrollTo]) -> [Module Utils]
    - [ValidatedForm.tsx] ([ValidatedForm], [useFormValidationContext])
      -> [Section Form]

    JavaScript objects that the code mutates in place (the field records
    and the [fields] objects) live in an explicit heap and are named by
    address, because [{ ...prevState }] only copies the top level: the
    committed React state and the buffered state share them.

    Layout: the model, the notions the statements use, sample inputs, and
    then the facts, one section per component. *)

From Stdlib Require Import ZArith List String Bool Lia.
From stdpp Require Import base list.
Import ListNotations.

Set Warnings "-register-all".
Local Open Scope Z_scope.

(* ===================================================================== *)
(** ** useBufferedState *)
(* ===================================================================== *)

Module BufferedState.

Section Hook.

(** [ValueT] is the hook's type parameter.  [Store] is whatever mutable
    memory an updater function may touch while it computes the next value
    (the heap of field records for the form; [unit] for pure updaters). *)
Context {ValueT Store : Type}.

(** [delay] is the hook's second argument (default [50]). *)
Variable delay : Z.

(** [setStateAction: ValueT | ((prevState: ValueT) => ValueT)], told apart
    by [typeof setStateAction === "function"]. *)
Inductive SetStateAction : Type :=
| NewValue (v : ValueT)
| Updater (f : ValueT -> Store -> ValueT * Store).

(** The three cells the hook owns: React's [state], [stateBufferRef.current]
    and [commitTimeoutRef.current].  A pending timeout is represented by the
    time at which it becomes due; [None] is [undefined]. *)
Record Hook : Type := mkHook {
  state : ValueT;
  stateBufferRef : ValueT;
  commitTimeoutRef : option Z
}.

(** [useState(value)] and [useRef(state)] on the first render. *)
Definition useBufferedState (value : ValueT) : Hook :=
  {| state := value; stateBufferRef := value; commitTimeoutRef := None |}.

(** [setTimeout] treats a negative delay as zero. *)
Definition setTimeout (now : Z) : Z := now + Z.max delay 0.

(** [commitStateFromBuffer]: clear the pending timeout, if any, and arm a
    new one. *)
Definition commitStateFromBuffer (now : Z) (h : Hook) : Hook :=
  {| state := state h;
     stateBufferRef := stateBufferRef h;
     commitTimeoutRef := Some (setTimeout now) |}.

(** The buffered setter returned by the hook. *)
Definition setState (now : Z) (a : SetStateAction) (h : Hook) (st : Store)
  : Hook * Store :=
  let '(buf, st') :=
    match a with
    | Updater f => f (stateBufferRef h) st
    | NewValue v => (v, st)
    end in
  (commitStateFromBuffer now
     {| state := state h; stateBufferRef := buf;
        commitTimeoutRef := commitTimeoutRef h |},
   st').

(** The callback given to [setTimeout]:
    [_setState(stateBufferRef.current); commitTimeoutRef.current = undefined]. *)
Definition timeoutCallback (h : Hook) : Hook :=
  {| state := stateBufferRef h;
     stateBufferRef := stateBufferRef h;
     commitTimeoutRef := None |}.

(** *** The hook on a time line

    A machine is the hook, the store, the current time, and the list of
    values handed to React's [_setState] so far (oldest first): these are
    the values a consumer of the hook can ever observe. *)
Record Machine : Type := mkMachine {
  hook : Hook;
  store : Store;
  clock : Z;
  commits : list ValueT
}.

Inductive Event : Type :=
| Write (t : Z) (a : SetStateAction)   (* [setState(a)] called at time [t] *)
| Timeout (t : Z).                     (* the timer callback runs at time [t] *)

(** Time does not go backwards, and a timer callback only runs when a
    timeout is pending and due. *)
Definition exec (ev : Event) (m : Machine) : option Machine :=
  match ev with
  | Write t a =>
      if clock m <=? t then
        let '(h, st) := setState t a (hook m) (store m) in
        Some {| hook := h; store := st; clock := t; commits := commits m |}
      else None
  | Timeout t =>
      if clock m <=? t then
        match commitTimeoutRef (hook m) with
        | Some due =>
            if due <=? t then
              Some {| hook := timeoutCallback (hook m);
                      store := store m;
                      clock := t;
                      commits := commits m ++ [stateBufferRef (hook m)] |}
            else None
        | None => None
        end
      else None
  end.

Fixpoint run (evs : list Event) (m : Machine) : option Machine :=
  match evs with
  | [] => Some m
  | ev :: rest =>
      match exec ev m with
      | Some m' => run rest m'
      | None => None
      end
  end.

(** The fold of the writes of a trace over a buffered value: every updater
    is applied to the latest buffered value. *)
Definition applyAction (a : SetStateAction) (b : ValueT * Store)
  : ValueT * Store :=
  match a with
  | Updater f => f (fst b) (snd b)
  | NewValue v => (v, snd b)
  end.

Fixpoint foldWrites (evs : list Event) (b : ValueT * Store) : ValueT * Store :=
  match evs with
  | [] => b
  | Write _ a :: rest => foldWrites rest (applyAction a b)
  | Timeout _ :: rest => foldWrites rest b
  end.

(** Every write of [evs] comes less than [delay] after the write before it;
    [prev] is the time of the last write seen. *)
Fixpoint spaced (prev : Z) (evs : list Event) : Prop :=
  match evs with
  | [] => True
  | Write t _ :: rest => t < prev + delay /\ spaced t rest
  | Timeout _ :: rest => spaced prev rest
  end.

Fixpoint timeouts (evs : list Event) : nat :=
  match evs with
  | [] => O
  | Write _ _ :: rest => timeouts rest
  | Timeout _ :: rest => S (timeouts rest)
  end.

(** The time of the last write of a trace ([prev] when it has none). *)
Fixpoint lastWrite (prev : Z) (evs : list Event) : Z :=
  match evs with
  | [] => prev
  | Write t _ :: rest => lastWrite t rest
  | Timeout _ :: rest => lastWrite prev rest
  end.

(** A timeout armed by a write at [prev] is pending and nothing happened
    since. *)
Definition armed (prev : Z) (m : Machine) : Prop :=
  commitTimeoutRef (hook m) = Some (setTimeout prev) /\ clock m = prev.

(** The timeout armed at [prev] has run. *)
Definition fired (prev : Z) (m : Machine) : Prop :=
  commitTimeoutRef (hook m) = None /\ prev + Z.max delay 0 <= clock m.

End Hook.

Arguments SetStateAction : clear implicits.
Arguments Hook : clear implicits.
Arguments Machine : clear implicits.
Arguments Event : clear implicits.

End BufferedState.

(* ===================================================================== *)
(** ** utils: isEmpty, getScrollableNode, scrollTo *)
(* ===================================================================== *)

Module Utils.

(** The JavaScript values [isEmpty] tells apart.  [isEmpty] never looks at
    the payload of a number, so an integer stands for it.  [JSIterable] is
    any non-string value with a [Symbol.iterator] method (arrays, Sets, ...)
    with the items it yields; [JSObject] is any other [typeof "object"]
    value with the enumerable properties [for ... in] visits. *)
Inductive JSValue : Type :=
| JSUndefined
| JSNull
| JSNumber (n : Z)
| JSBoolean (b : bool)
| JSDate
| JSString (s : string)
| JSIterable (items : list JSValue)
| JSObject (props : list (string * JSValue))
| JSFunction
| JSSymbol
| JSBigInt (n : Z).

(** [!object] for the values that reach the last line of [isEmpty]. *)
Definition falsy (object : JSValue) : bool :=
  match object with
  | JSUndefined | JSNull => true
  | JSNumber n => n =? 0
  | JSBoolean b => negb b
  | JSString s => match s with EmptyString => true | _ => false end
  | JSBigInt n => n =? 0
  | JSDate | JSIterable _ | JSObject _ | JSFunction | JSSymbol => false
  end.

Fixpoint isEmpty (object : JSValue) (ignoreFalsyValues : bool) : bool :=
  match object with
  | JSUndefined | JSNull => true
  | JSNumber _ | JSBoolean _ | JSDate => false
  | JSIterable items =>
      (fix each (l : list JSValue) : bool :=
         match l with
         | [] => true
         | item :: rest =>
             if negb (isEmpty item ignoreFalsyValues) then false else each rest
         end) items
  | JSObject props =>
      (fix each (l : list (string * JSValue)) : bool :=
         match l with
         | [] => true
         | (_, value) :: rest =>
             if negb (isEmpty value ignoreFalsyValues) then false else each rest
         end) props
  | JSString _ | JSFunction | JSSymbol | JSBigInt _ =>
      if ignoreFalsyValues then falsy object else false
  end.

(** A scrollable container as [getScrollableNode] and [scrollTo] probe it:
    which keys are [in] the node, and what the probed members yield.
    For [scroller], [getScrollResponder] and [getNode] the outer option is
    the presence of the key and the inner one the value obtained ([None]
    when it is [null] or [undefined]). *)
Inductive Node : Type := mkNode {
  scroller : option (option Node);
  has_scrollToTop : bool;
  has_scrollTo : bool;
  has_scrollToOffset : bool;
  has_scrollResponderScrollTo : bool;
  getScrollResponder : option (option Node);
  getNode : option (option Node);
  horizontal : bool
}.

Definition getScrollableNode (node : option Node) : option Node :=
  match node with
  | None => None
  | Some n =>
      match scroller n with
      | Some found => found
      | None =>
          if has_scrollToTop n || has_scrollTo n || has_scrollToOffset n
             || has_scrollResponderScrollTo n
          then Some n
          else match getScrollResponder n with
               | Some responder => responder
               | None =>
                   match getNode n with
                   | Some inner => inner
                   | None => Some n
                   end
               end
      end
  end.

(** The [offset] argument of [scrollTo]. *)
Record ScrollOffset : Type := mkScrollOffset {
  offset_x : option Z;
  offset_y : option Z;
  animated : bool
}.

(** The method of the node that [scrollTo] ends up calling. *)
Inductive ScrollCall : Type :=
| call_scrollTo (x y : option Z) (anim : bool)
| call_scrollToOffset (offset : option Z) (anim : bool)
| call_scrollResponderScrollTo (x y : option Z) (anim : bool).

Definition scrollTo (node : option Node) (offset : ScrollOffset)
  : option ScrollCall :=
  match node with
  | None => None
  | Some n =>
      let x := offset_x offset in
      let y := offset_y offset in
      if has_scrollTo n then Some (call_scrollTo x y (animated offset))
      else if has_scrollToOffset n then
        Some (call_scrollToOffset (if horizontal n then x else y)
                                  (animated offset))
      else if has_scrollResponderScrollTo n then
        Some (call_scrollResponderScrollTo x y (animated offset))
      else None
  end.

End Utils.

(* ===================================================================== *)
(** ** ValidatedForm *)
(* ===================================================================== *)

(** Addresses of heap objects. *)
Abbreviation ref := nat.

(** A [ValidatedFormFields] object: its own keys, in the order
    [Object.keys] lists them (array indices first, in ascending order,
    then the other names in insertion order), each with the address of its
    field record. *)
Abbreviation ValidatedFormFields := (list (string * ref)).

(** *** Property names *)

(** The names every object literal inherits from [Object.prototype], as
    the language defines that object: [fields[name]] finds a member under
    them (a function, or the prototype itself for [__proto__]: truthy, and
    not [undefined]) although no field is stored under the name.  A
    program that adds members to [Object.prototype] is not covered. *)
Definition inheritedName (name : string) : bool :=
  existsb (String.eqb name)
    [ "constructor"; "__defineGetter__"; "__defineSetter__";
      "hasOwnProperty"; "__lookupGetter__"; "__lookupSetter__";
      "isPrototypeOf"; "propertyIsEnumerable"; "toString"; "valueOf";
      "__proto__"; "toLocaleString" ]%string.

Definition digitOf (c : Ascii.ascii) : option N :=
  let n := Ascii.N_of_ascii c in
  if ((48 <=? n) && (n <=? 57))%N then Some (n - 48)%N else None.

Fixpoint digitsOf (acc : N) (s : string) : option N :=
  match s with
  | EmptyString => Some acc
  | String c rest =>
      match digitOf c with
      | Some d => digitsOf (10 * acc + d)%N rest
      | None => None
      end
  end.

(** The array index a property name denotes, if it denotes one: the name
    is the canonical decimal numeral of an integer below [2^32 - 1]. *)
Definition arrayIndex (name : string) : option N :=
  match name with
  | EmptyString => None
  | String c rest =>
      match digitOf c, rest with
      | None, _ => None
      | Some 0%N, String _ _ => None
      | Some _, _ =>
          match digitsOf 0 name with
          | Some n => if (n <? 4294967295)%N then Some n else None
          | None => None
          end
      end
  end.

(** Whether a key that is new to an object is listed before the existing
    key [k]: array indices come first, in ascending order; another name
    goes after every existing key. *)
Definition listedBefore (name k : string) : bool :=
  match arrayIndex name, arrayIndex k with
  | Some i, Some j => (i <? j)%N
  | Some _, None => true
  | None, _ => false
  end.

Section Form.

(** What the closures supplied by the field owners read when they are
    invoked (the owners' current props).  A [validateCallback] or a
    [measureYOffset] is a function of it; the registry never caches the
    outcome. *)
Variable Env : Type.

(** [Platform.OS === "web"]. *)
Variable platformIsWeb : bool.

(** [ValidatedFieldState].  Offsets are layout positions, integers here.
    [measureYOffset] gives the number its promise resolves to. *)
Record ValidatedFieldState : Type := mkField {
  valid : bool;
  yOffset : Z;
  measureYOffset : Env -> Z;
  validateCallback : Env -> bool
}.

(** [ValidatorState].  State objects are created by spreads and never
    assigned to afterwards, so they are plain values; [fields] is the
    address of the fields object. *)
Record ValidatorState : Type := mkState {
  ready : bool;
  fields : ref
}.

(** The heap: field records and fields objects, indexed by address. *)
Record Heap : Type := mkHeap {
  fieldStates : list ValidatedFieldState;
  fieldsObjects : list ValidatedFormFields
}.

(** *** Property access on a fields object *)

Fixpoint prop_get (name : string) (o : ValidatedFormFields) : option ref :=
  match o with
  | [] => None
  | (k, r) :: rest => if String.eqb k name then Some r else prop_get name rest
  end.

(** [{ ...o, [name]: r }]: an existing key keeps its place, a new one
    takes the place the order of [Object.keys] gives it. *)
Fixpoint prop_replace (name : string) (r : ref) (o : ValidatedFormFields)
  : ValidatedFormFields :=
  match o with
  | [] => []
  | (k, r0) :: rest =>
      if String.eqb k name then (k, r) :: rest
      else (k, r0) :: prop_replace name r rest
  end.

Fixpoint prop_insert (name : string) (r : ref) (o : ValidatedFormFields)
  : ValidatedFormFields :=
  match o with
  | [] => [(name, r)]
  | (k, r0) :: rest =>
      if listedBefore name k then (name, r) :: o
      else (k, r0) :: prop_insert name r rest
  end.

Definition prop_set (name : string) (r : ref) (o : ValidatedFormFields)
  : ValidatedFormFields :=
  match prop_get name o with
  | Some _ => prop_replace name r o
  | None => prop_insert name r o
  end.

(** [delete o[name]]. *)
Fixpoint prop_delete (name : string) (o : ValidatedFormFields)
  : ValidatedFormFields :=
  match o with
  | [] => []
  | (k, r) :: rest =>
      if String.eqb k name then prop_delete name rest
      else (k, r) :: prop_delete name rest
  end.

(** [Object.keys(o)]. *)
Definition keys (o : ValidatedFormFields) : list string := map fst o.

(** The fields object at address [fs]. *)
Definition fieldsAt (hp : Heap) (fs : ref) : ValidatedFormFields :=
  match fieldsObjects hp !! fs with
  | Some o => o
  | None => []
  end.

(** [fields[name]] through the heap, for what the fields object itself
    holds: the address of the record and the record, or [None] when the
    object has no such key.  Where the source reads [fields[name]] under a
    name that is not taken from [Object.keys], an inherited member is told
    apart by [inheritedName]. *)
Definition getField (hp : Heap) (fs : ref) (name : string)
  : option (ref * ValidatedFieldState) :=
  match prop_get name (fieldsAt hp fs) with
  | Some r =>
      match fieldStates hp !! r with
      | Some field => Some (r, field)
      | None => None
      end
  | None => None
  end.

(** [Object.entries(fields)]. *)
Definition entries (hp : Heap) (fs : ref)
  : list (string * option ValidatedFieldState) :=
  map (fun p => (fst p, fieldStates hp !! snd p)) (fieldsAt hp fs).

(** In-place assignments to a field record. *)
Definition set_valid (b : bool) (f : ValidatedFieldState) : ValidatedFieldState :=
  {| valid := b; yOffset := yOffset f;
     measureYOffset := measureYOffset f;
     validateCallback := validateCallback f |}.

Definition set_yOffset (y : Z) (f : ValidatedFieldState) : ValidatedFieldState :=
  {| valid := valid f; yOffset := y;
     measureYOffset := measureYOffset f;
     validateCallback := validateCallback f |}.

Definition assign_valid (r : ref) (b : bool) (hp : Heap) : Heap :=
  {| fieldStates := alter (set_valid b) r (fieldStates hp);
     fieldsObjects := fieldsObjects hp |}.

Definition assign_yOffset (r : ref) (y : Z) (hp : Heap) : Heap :=
  {| fieldStates := alter (set_yOffset y) r (fieldStates hp);
     fieldsObjects := fieldsObjects hp |}.

(** *** The component's world *)

Inductive Effect : Type :=
| ConsoleWarn (msg : string)
| ConsoleLog (msg : string)
| Throw (error : string)            (* an exception leaves the callback *)
| SetValidatorState                 (* a call of the buffered setter *)
| Commit (s : ValidatorState).      (* React's [_setState], from the timer *)

(** [pending] holds the promises returned by [measureYOffset] that have not
    resolved yet, each with the field name its [then] callback closes over.
    [effects] is the trace of what the component did, oldest first. *)
Record World : Type := mkWorld {
  heap : Heap;
  hook : BufferedState.Hook ValidatorState;
  clock : Z;
  scrollYRef : option Z;
  pending : list (string * (Env -> Z));
  effects : list Effect
}.

(** [validatorState], the committed state the callbacks close over, and the
    buffered one. *)
Definition validatorState (w : World) : ValidatorState :=
  BufferedState.state (hook w).

Definition buffered (w : World) : ValidatorState :=
  BufferedState.stateBufferRef (hook w).

(** [useBufferedState(DEFAULT_VALIDATOR_STATE)]: the default delay. *)
Definition DELAY : Z := 50.

(** [DEFAULT_VALIDATOR_STATE]; its [fields: {}] is the object at address 0. *)
Definition DEFAULT_VALIDATOR_STATE : ValidatorState :=
  {| ready := false; fields := O |}.

(** The form right after its first render: nothing registered, nothing
    buffered, no timeout pending. *)
Definition initialWorld : World :=
  {| heap := {| fieldStates := []; fieldsObjects := [ [] ] |};
     hook := BufferedState.useBufferedState DEFAULT_VALIDATOR_STATE;
     clock := 0;
     scrollYRef := None;
     pending := [];
     effects := [] |}.

(** [console.warn] and [console.log]. *)
Definition emit (e : Effect) (w : World) : World :=
  {| heap := heap w; hook := hook w; clock := clock w;
     scrollYRef := scrollYRef w; pending := pending w;
     effects := effects w ++ [e] |}.

(** [setValidatorState], the buffered setter of the form, called now. *)
Definition setValidatorState
  (a : BufferedState.SetStateAction ValidatorState Heap) (w : World) : World :=
  let '(h, hp) := BufferedState.setState DELAY (clock w) a (hook w) (heap w) in
  {| heap := hp; hook := h; clock := clock w;
     scrollYRef := scrollYRef w; pending := pending w;
     effects := effects w ++ [SetValidatorState] |}.

(** [{ ...prevState }]. *)
Definition spread (s : ValidatorState) : ValidatorState :=
  {| ready := ready s; fields := fields s |}.

(** The mount effect of [ValidatedForm]. *)
Definition mountEffect (w : World) : World :=
  setValidatorState
    (BufferedState.Updater
       (fun prevState hp => ({| ready := true; fields := fields prevState |}, hp)))
    w.

(** [updateFieldOffsetY].  Under a name inherited from [Object.prototype]
    the assignment [field.yOffset = yOffset] lands on the inherited member,
    which is no part of the registry: the heap is as it was. *)
Definition updateFieldOffsetY (name : string) (y : Z) (w : World) : World :=
  setValidatorState
    (BufferedState.Updater
       (fun prevState hp =>
          let newState := spread prevState in
          match getField hp (fields newState) name with
          | Some (r, _) => (newState, assign_yOffset r y hp)
          | None => (newState, hp)
          end))
    w.

Definition duplicateWarning (name : string) : string :=
  ("Found two or more fields with name " ++ name
   ++ ". This will cause unexpected behavior when validating form.")%string.

(** [addField].  The guard [validatorState.fields[name]] is truthy for a
    record of the committed fields object and for an inherited member. *)
Definition addField (name : string) (isValid : bool)
  (callback : Env -> bool) (measure : Env -> Z) (w : World) : World :=
  match getField (heap w) (fields (validatorState w)) name with
  | Some _ => emit (ConsoleWarn (duplicateWarning name)) w
  | None =>
      if inheritedName name
      then emit (ConsoleWarn (duplicateWarning name)) w
      else
        setValidatorState
          (BufferedState.Updater
             (fun prevState hp =>
                let newField :=
                  {| valid := isValid; measureYOffset := measure;
                     yOffset := 0; validateCallback := callback |} in
                let r := length (fieldStates hp) in
                let newFields :=
                  prop_set name r (fieldsAt hp (fields prevState)) in
                ({| ready := ready prevState;
                    fields := length (fieldsObjects hp) |},
                 {| fieldStates := fieldStates hp ++ [newField];
                    fieldsObjects := fieldsObjects hp ++ [newFields] |})))
          w
  end.

Definition removeField (name : string) (w : World) : World :=
  setValidatorState
    (BufferedState.Updater
       (fun prevState hp =>
          let newState := spread prevState in
          (newState,
           {| fieldStates := fieldStates hp;
              fieldsObjects :=
                alter (prop_delete name) (fields newState) (fieldsObjects hp) |})))
    w.

(** [validateField].  Under an inherited name [field] is the inherited
    member: it passes the guard, and the call of its [validateCallback],
    which is [undefined], throws. *)
Definition validateField (env : Env) (name : string) (w : World) : World :=
  match getField (heap w) (fields (validatorState w)) name with
  | None =>
      if inheritedName name
      then emit (Throw "TypeError") w
      else emit (ConsoleLog "Trying to validate non-existing field!") w
  | Some (_, field) =>
      if Bool.eqb (valid field) (validateCallback field env) then w
      else
        setValidatorState
          (BufferedState.Updater
             (fun prevState hp =>
                let newState := spread prevState in
                let isValid := validateCallback field env in
                match getField hp (fields newState) name with
                | Some (r, _) => (newState, assign_valid r isValid hp)
                | None => (newState, hp)
                end))
          w
  end.

(** [measureYOffsets]: one promise per field record of the committed
    state. *)
Definition measureYOffsets (w : World) : list (string * (Env -> Z)) :=
  flat_map
    (fun entry =>
       match snd entry with
       | Some field => [(fst entry, measureYOffset field)]
       | None => []
       end)
    (entries (heap w) (fields (validatorState w))).

(** [===] on [boolean | undefined]. *)
Definition strictEq (a b : option bool) : bool :=
  match a, b with
  | Some x, Some y => Bool.eqb x y
  | None, None => true
  | _, _ => false
  end.

(** [!!isValid]. *)
Definition truthy (v : option bool) : bool :=
  match v with
  | Some b => b
  | None => false
  end.

(** The body of the [forEach] in [validateForm]; the accumulator is the
    local [isFormValid] and the heap the body assigns into. *)
Definition validateFormStep (env : Env) (fs : ref)
  (acc : bool * Heap) (fieldName : string) : bool * Heap :=
  let '(isFormValid, hp) := acc in
  let isValid :=
    option_map (fun p => validateCallback (snd p) env) (getField hp fs fieldName) in
  let isFormValid := if negb (truthy isValid) then false else isFormValid in
  let field := getField hp fs fieldName in
  if strictEq isValid (option_map (fun p => valid (snd p)) field)
  then (isFormValid, hp)
  else
    match field with
    | Some (r, _) => (isFormValid, assign_valid r (truthy isValid) hp)
    | None => (isFormValid, hp)
    end.

Definition validateForm (env : Env) (w : World) : bool * World :=
  if Bool.eqb (ready (validatorState w)) false then (false, w)
  else
    let promises := measureYOffsets w in
    let newState := spread (validatorState w) in
    let '(isFormValid, hp) :=
      fold_left (validateFormStep env (fields newState))
                (keys (fieldsAt (heap w) (fields newState)))
                (true, heap w) in
    (isFormValid,
     setValidatorState
       (BufferedState.Updater (fun _ hp' => (newState, hp')))
       {| heap := hp; hook := hook w; clock := clock w;
          scrollYRef := scrollYRef w;
          pending := pending w ++ promises;
          effects := effects w |}).

Definition resetValidations (w : World) : World :=
  setValidatorState
    (BufferedState.Updater
       (fun prevState hp =>
          let newState := spread prevState in
          (newState,
           fold_left
             (fun hp' fieldName =>
                match getField hp' (fields newState) fieldName with
                | Some (r, _) => assign_valid r true hp'
                | None => hp'
                end)
             (keys (fieldsAt hp (fields newState)))
             hp)))
    w.

(** [setScrollY]. *)
Definition setScrollY (value : option Z) (w : World) : World :=
  {| heap := heap w; hook := hook w; clock := clock w;
     scrollYRef := value; pending := pending w; effects := effects w |}.

(** The [then] callback of the [i]-th pending measurement. *)
Definition measureResolved (env : Env) (i : nat) (w : World) : option World :=
  match pending w !! i with
  | Some (name, measure) =>
      let webAdjustment :=
        if platformIsWeb then
          match scrollYRef w with Some y => y | None => 0 end
        else 0 in
      Some (updateFieldOffsetY name (measure env + webAdjustment)
              {| heap := heap w; hook := hook w; clock := clock w;
                 scrollYRef := scrollYRef w;
                 pending := take i (pending w) ++ drop (S i) (pending w);
                 effects := effects w |})
  | None => None
  end.

(** The timer of the buffered state fires: the buffer is committed. *)
Definition timerFires (w : World) : option World :=
  match BufferedState.commitTimeoutRef (hook w) with
  | Some due =>
      if due <=? clock w then
        Some {| heap := heap w;
                hook := BufferedState.timeoutCallback (hook w);
                clock := clock w;
                scrollYRef := scrollYRef w; pending := pending w;
                effects := effects w ++ [Commit (buffered w)] |}
      else None
  | None => None
  end.

(** Time passes. *)
Definition tick (t : Z) (w : World) : option World :=
  if clock w <=? t then
    Some {| heap := heap w; hook := hook w; clock := t;
            scrollYRef := scrollYRef w; pending := pending w;
            effects := effects w |}
  else None.

(** *** Everything that can happen to a mounted form *)

Inductive Action : Type :=
| DoMountEffect
| DoAddField (name : string) (isValid : bool)
             (callback : Env -> bool) (measure : Env -> Z)
| DoRemoveField (name : string)
| DoUpdateFieldOffsetY (name : string) (y : Z)
| DoValidateField (env : Env) (name : string)
| DoValidateForm (env : Env)
| DoResetValidations
| DoSetScrollY (value : option Z)
| DoMeasureResolved (env : Env) (i : nat)
| DoTimerFires
| DoTick (t : Z).

Definition perform (a : Action) (w : World) : option World :=
  match a with
  | DoMountEffect => Some (mountEffect w)
  | DoAddField name isValid callback measure =>
      Some (addField name isValid callback measure w)
  | DoRemoveField name => Some (removeField name w)
  | DoUpdateFieldOffsetY name y => Some (updateFieldOffsetY name y w)
  | DoValidateField env name => Some (validateField env name w)
  | DoValidateForm env => Some (snd (validateForm env w))
  | DoResetValidations => Some (resetValidations w)
  | DoSetScrollY value => Some (setScrollY value w)
  | DoMeasureResolved env i => measureResolved env i w
  | DoTimerFires => timerFires w
  | DoTick t => tick t w
  end.

Fixpoint performAll (acts : list Action) (w : World) : option World :=
  match acts with
  | [] => Some w
  | a :: rest =>
      match perform a w with
      | Some w' => performAll rest w'
      | None => None
      end
  end.

(** *** The scroll coordinator ([useFormValidationContext]) *)

(** The body of the [forEach] in [scrollToInvalidFields]; the accumulator
    is [(shouldScroll, shouldScrollToOffset)]. *)
Definition scanInvalid (acc : bool * option Z)
  (entry : string * option ValidatedFieldState) : bool * option Z :=
  match snd entry with
  | None => acc
  | Some field =>
      if negb (valid field) then
        (true,
         match snd acc with
         | None => Some (yOffset field)
         | Some o => if yOffset field <? o then Some (yOffset field) else Some o
         end)
      else acc
  end.

(** The call of the [scrollTo] utility that [scrollToInvalidFields] makes,
    if any: the node and the offset argument. *)
Definition scrollToInvalidFields (scrollView : option Utils.Node)
  (extraScrollHeight : Z) (hp : Heap) (st : ValidatorState)
  : option (Utils.Node * Utils.ScrollOffset) :=
  match Utils.getScrollableNode scrollView with
  | None => None
  | Some scrollableNode =>
      match fold_left scanInvalid (entries hp (fields st)) (false, None) with
      | (true, Some o) =>
          Some (scrollableNode,
                {| Utils.offset_x := None;
                   Utils.offset_y := Some (Z.max (o - extraScrollHeight) 0);
                   Utils.animated := true |})
      | _ => None
      end
  end.

End Form.

Arguments mkField {Env}.
Arguments valid {Env}.
Arguments yOffset {Env}.
Arguments measureYOffset {Env}.
Arguments validateCallback {Env}.
Arguments mkHeap {Env}.
Arguments fieldStates {Env}.
Arguments fieldsObjects {Env}.
Arguments fieldsAt {Env}.
Arguments getField {Env}.
Arguments entries {Env}.
Arguments set_valid {Env}.
Arguments set_yOffset {Env}.
Arguments assign_valid {Env}.
Arguments assign_yOffset {Env}.
Arguments mkWorld {Env}.
Arguments heap {Env}.
Arguments hook {Env}.
Arguments clock {Env}.
Arguments scrollYRef {Env}.
Arguments pending {Env}.
Arguments effects {Env}.
Arguments validatorState {Env}.
Arguments buffered {Env}.
Arguments initialWorld {Env}.
Arguments emit {Env}.
Arguments setValidatorState {Env}.
Arguments mountEffect {Env}.
Arguments updateFieldOffsetY {Env}.
Arguments addField {Env}.
Arguments removeField {Env}.
Arguments validateField {Env}.
Arguments measureYOffsets {Env}.
Arguments validateFormStep {Env}.
Arguments validateForm {Env}.
Arguments resetValidations {Env}.
Arguments setScrollY {Env}.
Arguments measureResolved {Env}.
Arguments timerFires {Env}.
Arguments tick {Env}.
Arguments DoMountEffect {Env}.
Arguments DoAddField {Env}.
Arguments DoRemoveField {Env}.
Arguments DoUpdateFieldOffsetY {Env}.
Arguments DoValidateField {Env}.
Arguments DoValidateForm {Env}.
Arguments DoResetValidations {Env}.
Arguments DoSetScrollY {Env}.
Arguments DoMeasureResolved {Env}.
Arguments DoTimerFires {Env}.
Arguments DoTick {Env}.
Arguments perform {Env}.
Arguments performAll {Env}.
Arguments scanInvalid {Env}.
Arguments scrollToInvalidFields {Env}.

(* ===================================================================== *)
(** ** Notions the statements below are written with *)
(* ===================================================================== *)

Section Notions.

Context {Env : Type}.

(** Two records that differ at most in their [valid] flag. *)
Definition sameButValid (f f' : ValidatedFieldState Env) : Prop :=
  yOffset f' = yOffset f /\
  measureYOffset f' = measureYOffset f /\
  validateCallback f' = validateCallback f.

(** [hp'] is [hp] after assignments to [valid] flags only: the fields
    objects, and every record's offset and closures, are the same. *)
Definition validOnly (hp hp' : Heap Env) : Prop :=
  fieldsObjects hp' = fieldsObjects hp /\
  length (fieldStates hp') = length (fieldStates hp) /\
  forall (r : ref) (f : ValidatedFieldState Env),
    fieldStates hp !! r = Some f ->
    exists f', fieldStates hp' !! r = Some f' /\ sameButValid f f'.

(** What the validation predicate registered under [name] returns when it
    is invoked now; a key without a record counts as a failed field, as
    [undefined] is falsy. *)
Definition passes (env : Env) (hp : Heap Env) (fs : ref) (name : string) : bool :=
  match getField hp fs name with
  | Some (_, f) => validateCallback f env
  | None => false
  end.

(** The names [validateForm] walks: the keys of the committed fields
    object.  A field that [addField] has registered is among them only
    once its registration has been committed. *)
Definition registeredNames (w : World Env) : list string :=
  keys (fieldsAt (heap w) (fields (validatorState w))).

(** The body of the [forEach] in [resetValidations]. *)
Definition resetStep (fs : ref) (hp : Heap Env) (fieldName : string) : Heap Env :=
  match getField hp fs fieldName with
  | Some (r, _) => assign_valid r true hp
  | None => hp
  end.


(** The offsets of the invalid records of a list of entries, in order. *)
Fixpoint invalidOffsets (es : list (string * option (ValidatedFieldState Env)))
  : list Z :=
  match es with
  | [] => []
  | (_, Some f) :: rest =>
      if valid f then invalidOffsets rest else yOffset f :: invalidOffsets rest
  | (_, None) :: rest => invalidOffsets rest
  end.

End Notions.

(* ===================================================================== *)
(** ** Sample inputs *)
(* ===================================================================== *)

Section BurstSample.

Import BufferedState.

(** A numeric cell with pure updaters: the write of [1] at time 0 is
    followed by an increment at 10 and a multiplication by ten at 20. *)
Definition burstStart : Machine Z unit :=
  {| hook := useBufferedState 0; store := tt; clock := 0; commits := [] |}.

Definition burstRest : list (Event Z unit) :=
  [ Write 10 (Updater (fun v st => (v + 1, st)));
    Write 20 (Updater (fun v st => (v * 10, st))) ].

Definition burstEnd : Machine Z unit :=
  {| hook := {| state := 0; stateBufferRef := 20;
                commitTimeoutRef := Some 70 |};
     store := tt; clock := 20; commits := [] |}.

End BurstSample.

Section FormSamples.

(** Forms whose field owners have no props. *)
Definition passing : unit -> bool := fun _ => true.

Definition failing : unit -> bool := fun _ => false.

Definition measuresAt (y : Z) : unit -> Z := fun _ => y.

(** The world after a list of actions on a freshly mounted form. *)
Definition after (acts : list (Action unit)) : World unit :=
  match performAll false acts initialWorld with
  | Some w => w
  | None => initialWorld
  end.

(** Two fields registered while mounting, the mount effect, and the first
    commit: field [a] fails its predicate, field [b] passes. *)
Definition mountedForm : World unit :=
  after [ DoAddField "a" true failing (measuresAt 0);
          DoAddField "b" true passing (measuresAt 0);
          DoMountEffect; DoTick 50; DoTimerFires ].

(** Before the first commit the same two fields are only buffered. *)
Definition mountingForm : World unit :=
  after [ DoAddField "a" true passing (measuresAt 0);
          DoAddField "b" true passing (measuresAt 0);
          DoMountEffect ].

(** One field, registered and committed. *)
Definition oneField : World unit :=
  after [ DoAddField "a" true passing (measuresAt 0);
          DoMountEffect; DoTick 50; DoTimerFires ].

(** Then its offset is updated, which is a buffered write. *)
Definition offsetBuffered : World unit := updateFieldOffsetY "a" 120 oneField.

(** A scroll view with a [scrollTo] method. *)
Definition scrollNode : Utils.Node :=
  {| Utils.scroller := None;
     Utils.has_scrollToTop := false;
     Utils.has_scrollTo := true;
     Utils.has_scrollToOffset := false;
     Utils.has_scrollResponderScrollTo := false;
     Utils.getScrollResponder := None;
     Utils.getNode := None;
     Utils.horizontal := false |}.

(** [{a: invalid @ 300, b: invalid @ 100, c: valid @ 50}]. *)
Definition threeFields : Heap unit :=
  {| fieldStates :=
       [ mkField false 300 (measuresAt 300) failing;
         mkField false 100 (measuresAt 100) failing;
         mkField true 50 (measuresAt 50) passing ];
     fieldsObjects :=
       [ []; [("a"%string, 0%nat); ("b"%string, 1%nat); ("c"%string, 2%nat)] ] |}.

Definition threeFieldsState : ValidatorState := {| ready := true; fields := 1%nat |}.

End FormSamples.

(* ===================================================================== *)
(** ** The consumer hook and the field owner *)
(* ===================================================================== *)

(** *** useFormValidationContext *)

Section ConsumerHook.

Context {Env : Type}.

(** What an instance of the hook holds between renders: the
    [queueScrollToInvalidFields] ref, and, as a trace, the methods it has
    called on scrollable nodes, oldest first. *)
Record Consumer : Type := mkConsumer {
  queueScrollToInvalidFields : bool;
  scrollCalls : list (Utils.Node * Utils.ScrollCall)
}.

Definition useFormValidationContext : Consumer :=
  {| queueScrollToInvalidFields := false; scrollCalls := [] |}.

(** [scrollToInvalidFields()] of a render that sees the committed state of
    [w], with the call of the [scrollTo] utility carried out. *)
Definition runScrollToInvalidFields (scrollView : option Utils.Node)
  (extraScrollHeight : Z) (w : World Env) (c : Consumer) : Consumer :=
  match scrollToInvalidFields scrollView extraScrollHeight
          (heap w) (validatorState w) with
  | Some (scrollableNode, offset) =>
      match Utils.scrollTo (Some scrollableNode) offset with
      | Some call =>
          {| queueScrollToInvalidFields := queueScrollToInvalidFields c;
             scrollCalls := scrollCalls c ++ [(scrollableNode, call)] |}
      | None => c
      end
  | None => c
  end.

(** The effect on [[scrollToInvalidFields, state]]. *)
Definition queueEffect (scrollView : option Utils.Node)
  (extraScrollHeight : Z) (w : World Env) (c : Consumer) : Consumer :=
  if queueScrollToInvalidFields c then
    {| queueScrollToInvalidFields := false;
       scrollCalls :=
         scrollCalls (runScrollToInvalidFields scrollView extraScrollHeight w c) |}
  else c.

(** The [validateForm(scrollIfInvalid = true)] the hook returns. *)
Definition hookValidateForm (env : Env) (scrollIfInvalid : bool)
  (c : Consumer) (w : World Env) : bool * Consumer * World Env :=
  let '(isValid, w') := validateForm env w in
  (isValid,
   if negb isValid && scrollIfInvalid
   then {| queueScrollToInvalidFields := true; scrollCalls := scrollCalls c |}
   else c,
   w').

(** What happens between a call of [validateForm] and the commit of its
    write without the application calling the registry: the measurements
    it asked for resolve, the scroll position is noted, time passes. *)
Definition unprompted (a : Action Env) : bool :=
  match a with
  | DoMeasureResolved _ _ | DoSetScrollY _ | DoTick _ => true
  | _ => false
  end.

End ConsumerHook.

(** *** ValidatedAny *)

Module ValidatedAny.

Import Utils.

(** The props [validate] and the effects read.  [required] and the custom
    [validate] are optional; [disableAutoValidation] is read for its
    truthiness only. *)
Record Props : Type := mkProps {
  name : string;
  required : option bool;
  value : JSValue;
  validateProp : option (JSValue -> bool);
  disableAutoValidation : bool
}.

Section Owner.

(** [String.prototype.trim]. *)
Variable trim : string -> string.

(** The [validate] callback; [props] is [propsRef.current]. *)
Definition validate (props : Props) : bool :=
  if (match required props with Some false => true | _ => false end)
     && isEmpty (value props) true
  then true
  else
    match validateProp props with
    | Some custom => custom (value props)
    | None =>
        match value props with
        | JSString s => negb (isEmpty (JSString (trim s)) true)
        | v => negb (isEmpty v true)
        end
    end.

(** The field owners' props at the time a callback runs. *)
Definition Owners : Type := string -> Props.

(** [isReady.current], as a render that sees the committed state of [w]
    assigns it: [state.fields[props.name] !== undefined]. *)
Definition isReady (props : Props) (w : World Owners) : bool :=
  match getField (heap w) (fields (validatorState w)) (name props) with
  | Some _ => true
  | None => inheritedName (name props)
  end.

(** The effect that validates the field when its value changes.
    [isReadyCurrent] is [isReady.current], which the last render assigned;
    the effect runs later, in the world [w] that the cleanups and effects
    of the components before it have left. *)
Definition autoValidateEffect (disableValidateFieldOnChange : bool)
  (props : Props) (isReadyCurrent : bool) (env : Owners) (w : World Owners)
  : World Owners :=
  if negb isReadyCurrent then w
  else if disableValidateFieldOnChange then w
  else if negb (disableAutoValidation props)
       then validateField env (name props) w
       else w.

End Owner.

End ValidatedAny.

(** *** Notions for runs, values and heaps *)

Section HookRunNotions.

Import BufferedState.

Context {ValueT Store : Type}.
Variable delay : Z.

Local Abbreviation Machine := (BufferedState.Machine ValueT Store).
Local Abbreviation Event := (BufferedState.Event ValueT Store).

(** The number of writes of a trace. *)
Fixpoint writes (evs : list Event) : nat :=
  match evs with
  | [] => O
  | Write _ _ :: rest => S (writes rest)
  | Timeout _ :: rest => writes rest
  end.

(** The hook when the component has just mounted, at time [t0]. *)
Definition mounted (value : ValueT) (st : Store) (t0 : Z) : Machine :=
  {| hook := useBufferedState value; store := st; clock := t0; commits := [] |}.

(** What holds of a machine reached from [mounted value st t0] by the
    events [evs]. *)
Definition hookInv (value : ValueT) (st : Store) (t0 : Z)
  (evs : list Event) (m : Machine) : Prop :=
  (stateBufferRef (hook m), store m) = foldWrites evs (value, st) /\
  state (hook m) = List.last (commits m) value /\
  (commitTimeoutRef (hook m) = None -> state (hook m) = stateBufferRef (hook m)) /\
  (forall due, commitTimeoutRef (hook m) = Some due ->
               due = setTimeout delay (lastWrite t0 evs)) /\
  (length (commits m) <= writes evs)%nat /\
  (commitTimeoutRef (hook m) = None -> length (commits m) <= writes evs)%nat /\
  (forall due, commitTimeoutRef (hook m) = Some due ->
               (length (commits m) < writes evs)%nat).

End HookRunNotions.

Section ValueShape.

Import Utils.

(** The values found at the leaves of a value: everything that is not
    itself a collection, whatever the nesting and the keys on the way. *)
Fixpoint leaves (v : JSValue) : list JSValue :=
  match v with
  | JSIterable items =>
      (fix each (l : list JSValue) : list JSValue :=
         match l with
         | [] => []
         | item :: rest => leaves item ++ each rest
         end) items
  | JSObject props =>
      (fix each (l : list (string * JSValue)) : list JSValue :=
         match l with
         | [] => []
         | (_, value) :: rest => leaves value ++ each rest
         end) props
  | _ => [v]
  end.

(** A leaf that is empty under the default flag is [null] or
    [undefined]. *)
Definition absent (v : JSValue) : bool :=
  match v with
  | JSUndefined | JSNull => true
  | _ => false
  end.

(** Induction on values, with the members of a collection covered. *)
Section JSValueInduction.

Variable P : JSValue -> Prop.
Hypothesis Hundefined : P JSUndefined.
Hypothesis Hnull : P JSNull.
Hypothesis Hnumber : forall n, P (JSNumber n).
Hypothesis Hboolean : forall b, P (JSBoolean b).
Hypothesis Hdate : P JSDate.
Hypothesis Hstring : forall s, P (JSString s).
Hypothesis Hiterable : forall items, Forall P items -> P (JSIterable items).
Hypothesis Hobject :
  forall props, Forall (fun p => P (snd p)) props -> P (JSObject props).
Hypothesis Hfunction : P JSFunction.
Hypothesis Hsymbol : P JSSymbol.
Hypothesis Hbigint : forall n, P (JSBigInt n).

Fixpoint JSValue_members_ind (v : JSValue) : P v :=
  match v with
  | JSUndefined => Hundefined
  | JSNull => Hnull
  | JSNumber n => Hnumber n
  | JSBoolean b => Hboolean b
  | JSDate => Hdate
  | JSString s => Hstring s
  | JSIterable items =>
      Hiterable items
        ((fix each (l : list JSValue) : Forall P l :=
            match l with
            | [] => @List.Forall_nil _ P
            | item :: rest =>
                @List.Forall_cons _ P item rest (JSValue_members_ind item) (each rest)
            end) items)
  | JSObject props =>
      Hobject props
        ((fix each (l : list (string * JSValue))
            : Forall (fun p => P (snd p)) l :=
            match l with
            | [] => @List.Forall_nil _ _
            | p :: rest =>
                @List.Forall_cons _ (fun p => P (snd p)) p rest
                  (JSValue_members_ind (snd p)) (each rest)
            end) props)
  | JSFunction => Hfunction
  | JSSymbol => Hsymbol
  | JSBigInt n => Hbigint n
  end.

End JSValueInduction.

End ValueShape.

Section WellFormedness.

Context {Env : Type}.

(** A fields object has no key twice and every key holds the address of
    an existing record. *)
Definition wfObject (hp : Heap Env) (o : ValidatedFormFields) : Prop :=
  List.NoDup (keys o) /\
  forall (k : string) (r : ref), In (k, r) o -> (r < length (fieldStates hp))%nat.

Definition wfHeap (hp : Heap Env) : Prop :=
  forall (fs : ref) (o : ValidatedFormFields),
    fieldsObjects hp !! fs = Some o -> wfObject hp o.

(** Both states point to existing, well-formed fields objects, and the
    [fields: {}] of [DEFAULT_VALIDATOR_STATE], at address 0, is empty. *)
Definition wfWorld (w : World Env) : Prop :=
  wfHeap (heap w) /\
  (fields (validatorState w) < length (fieldsObjects (heap w)))%nat /\
  (fields (buffered w) < length (fieldsObjects (heap w)))%nat /\
  fieldsObjects (heap w) !! O = Some [].

(** The fields objects are the same and no record was added or dropped. *)
Definition sameShape (hp hp' : Heap Env) : Prop :=
  fieldsObjects hp' = fieldsObjects hp /\
  length (fieldStates hp') = length (fieldStates hp).

(** [hp'] is [hp] after assignments to offsets only. *)
Definition offsetsOnly (hp hp' : Heap Env) : Prop :=
  fieldsObjects hp' = fieldsObjects hp /\
  length (fieldStates hp') = length (fieldStates hp) /\
  forall (r : ref) (f : ValidatedFieldState Env),
    fieldStates hp !! r = Some f ->
    exists f' : ValidatedFieldState Env,
      fieldStates hp' !! r = Some f' /\
      valid f' = valid f /\
      measureYOffset f' = measureYOffset f /\
      validateCallback f' = validateCallback f.

End WellFormedness.

(** *** Further sample inputs *)

Section FurtherSamples.

(** Three fields right after the first commit: [a] and [b] fail their
    predicates, [c] passes; no offset has been measured yet, every record
    holds 0. *)
Definition unmeasuredForm : World unit :=
  after [ DoAddField "a" true failing (measuresAt 300);
          DoAddField "b" true failing (measuresAt 100);
          DoAddField "c" true passing (measuresAt 50);
          DoMountEffect; DoTick 50; DoTimerFires ].

(** Field [a] is committed; then [c] registers, which is a buffered
    write: the committed state does not have it yet. *)
Definition withBufferedField : World unit :=
  addField "c" true passing (measuresAt 0) oneField.



(** That form after a [validateForm] that fails, after the three
    measurements the call asked for have resolved and time has passed, and
    after the timer has committed. *)
Definition validatedForm : World unit := snd (validateForm tt unmeasuredForm).

Definition remeasuredForm : World unit :=
  match performAll false
          [ DoMeasureResolved tt 0; DoMeasureResolved tt 0;
            DoMeasureResolved tt 0; DoTick 200 ] validatedForm with
  | Some w => w
  | None => validatedForm
  end.

Definition committedForm : World unit :=
  match timerFires remeasuredForm with
  | Some w => w
  | None => remeasuredForm
  end.

(** [trim] on strings of spaces and letters. *)
Definition isSpace (c : Ascii.ascii) : bool :=
  Ascii.eqb c (Ascii.ascii_of_nat 32).

Fixpoint trimStart (s : string) : string :=
  match s with
  | String c rest => if isSpace c then trimStart rest else s
  | EmptyString => s
  end.

Fixpoint rev_string (acc s : string) : string :=
  match s with
  | EmptyString => acc
  | String c rest => rev_string (String c acc) rest
  end.

Definition trimSpaces (s : string) : string :=
  rev_string EmptyString (trimStart (rev_string EmptyString (trimStart s))).

End FurtherSamples.

(* ===================================================================== *)
(** ** Facts about useBufferedState *)
(* ===================================================================== *)

Section HookFacts.

Import BufferedState.

Context {ValueT Store : Type}.
Variable delay : Z.

Local Abbreviation Machine := (BufferedState.Machine ValueT Store).
Local Abbreviation Event := (BufferedState.Event ValueT Store).

Lemma run_app (p s : list Event) (m : Machine) :
  run delay (p ++ s) m =
  match run delay p m with
  | Some mp => run delay s mp
  | None => None
  end.
Proof.
  revert m. induction p as [|ev p IH]; intros m; simpl; [reflexivity|].
  destruct (exec delay ev m); [apply IH | reflexivity].
Qed.

Lemma spaced_app (prev : Z) (p s : list Event) :
  spaced delay prev (p ++ s) <->
  spaced delay prev p /\ spaced delay (lastWrite prev p) s.
Proof.
  revert prev. induction p as [|[t a|t] p IH]; intros prev; simpl.
  - tauto.
  - rewrite IH. tauto.
  - apply IH.
Qed.

Lemma foldWrites_app (p s : list Event) (b : ValueT * Store) :
  foldWrites (p ++ s) b = foldWrites s (foldWrites p b).
Proof.
  revert b. induction p as [|[t a|t] p IH]; intros b; simpl; auto.
Qed.

(** Once the timeout has run, a trace whose writes are spaced by less than
    [delay] has nothing left to do: a further write would come too late and
    there is no timeout to run. *)
Lemma fired_stops (prev : Z) (evs : list Event) (m m' : Machine) :
  fired delay prev m ->
  spaced delay prev evs ->
  run delay evs m = Some m' ->
  evs = [] /\ m' = m.
Proof.
  intros [Hnone Hlate] Hsp Hrun.
  destruct evs as [|[t a|t] rest]; simpl in *.
  - split; congruence.
  - destruct Hsp as [Hlt _].
    destruct (Z.leb_spec (clock m) t); [lia | discriminate].
  - rewrite Hnone in Hrun.
    destruct (clock m <=? t); discriminate.
Qed.

Lemma exec_write (t : Z) (a : SetStateAction ValueT Store) (m m1 : Machine) :
  exec delay (Write t a) m = Some m1 ->
  armed delay t m1 /\
  commits m1 = commits m /\
  state (hook m1) = state (hook m) /\
  (stateBufferRef (hook m1), store m1)
  = applyAction a (stateBufferRef (hook m), store m).
Proof.
  unfold exec, setState, armed.
  destruct (clock m <=? t); [|discriminate].
  destruct a as [v|f]; simpl.
  - intros [= <-]. simpl. auto.
  - destruct (f (stateBufferRef (hook m)) (store m)) as [buf st] eqn:E.
    intros [= <-]. simpl. auto.
Qed.

(** The shape of every run that starts right after a write at [prev]. *)
Lemma burst_shape (evs : list Event) :
  forall (prev : Z) (m m' : Machine),
    armed delay prev m ->
    spaced delay prev evs ->
    run delay evs m = Some m' ->
    (stateBufferRef (hook m'), store m')
    = foldWrites evs (stateBufferRef (hook m), store m) /\
    ((armed delay (lastWrite prev evs) m' /\ commits m' = commits m /\
      state (hook m') = state (hook m) /\ timeouts evs = O)
     \/
     (fired delay (lastWrite prev evs) m' /\
      commits m' = commits m ++ [stateBufferRef (hook m')] /\
      state (hook m') = stateBufferRef (hook m') /\ timeouts evs = 1%nat)).
Proof.
  induction evs as [|[t a|t] rest IH]; intros prev m m' Harm Hsp Hrun.
  - simpl in *. injection Hrun as <-. split; [reflexivity|]. left. auto.
  - cbn [run spaced] in Hrun, Hsp. destruct Hsp as [_ Hsp].
    destruct (exec delay (Write t a) m) as [m1|] eqn:E; [|discriminate].
    destruct (exec_write _ _ _ _ E) as (Harm1 & Hc & Hs & Hb).
    destruct (IH t m1 m' Harm1 Hsp Hrun) as [Hfold Hcases].
    cbn [foldWrites lastWrite timeouts]. rewrite <- Hb.
    split; [exact Hfold|]. rewrite <- Hc, <- Hs. exact Hcases.
  - cbn [run spaced] in Hrun, Hsp.
    destruct Harm as [Htimer Hclock].
    unfold exec in Hrun. rewrite Htimer in Hrun.
    destruct (Z.leb_spec (clock m) t) as [Hle|]; [|discriminate].
    unfold setTimeout in Hrun.
    destruct (Z.leb_spec (prev + Z.max delay 0) t) as [Hdue|]; [|discriminate].
    match type of Hrun with run _ _ ?m1 = _ => set (m1' := m1) in * end.
    assert (Hf : fired delay prev m1') by (split; [reflexivity | exact Hdue]).
    destruct (fired_stops _ _ _ _ Hf Hsp Hrun) as [-> ->].
    simpl. split; [reflexivity|]. right. auto.
Qed.

(** ** C4 *)

(** C4: when every write of a burst comes less than [delay] after the one
    before it, the only value ever handed to React is the buffered value
    after the last write, which is the fold of all the writes, every
    updater applied to the latest buffered value.  At no point of the run
    has any other value been committed, and once [delay] has elapsed after
    the last write the timer callback commits exactly that value. *)
Theorem buffered_burst_commits_only_final
  (m m' : Machine) (t : Z) (a : SetStateAction ValueT Store)
  (rest : list Event) :
  run delay (Write t a :: rest) m = Some m' ->
  spaced delay t rest ->
  let final :=
    fst (foldWrites (Write t a :: rest) (stateBufferRef (hook m), store m)) in
  stateBufferRef (hook m') = final /\
  (forall (p s : list Event) (mp : Machine),
      Write t a :: rest = p ++ s ->
      run delay p m = Some mp ->
      (commits mp = commits m /\ state (hook mp) = state (hook m)) \/
      (commits mp = commits m ++ [final] /\ state (hook mp) = final)) /\
  (timeouts rest = O ->
   commits m' = commits m /\
   forall t' : Z,
     clock m' + Z.max delay 0 <= t' ->
     exists m'' : Machine,
       run delay [Timeout t'] m' = Some m'' /\
       state (hook m'') = final /\
       commits m'' = commits m ++ [final]).
Proof.
  intros Hrun Hsp final.
  assert (Hall : forall (p s : list Event) (mp : Machine),
             Write t a :: rest = p ++ s ->
             run delay p m = Some mp ->
             run delay s mp = Some m').
  { intros p s mp Heq Hp. rewrite Heq, run_app, Hp in Hrun. exact Hrun. }
  cbn [run] in Hrun.
  destruct (exec delay (Write t a) m) as [m1|] eqn:E; [|discriminate].
  destruct (exec_write _ _ _ _ E) as (Harm1 & Hc & Hs & Hb).
  destruct (burst_shape rest t m1 m' Harm1 Hsp Hrun) as [Hfold Hcases].
  assert (Hfinal : stateBufferRef (hook m') = final).
  { unfold final. simpl. rewrite <- Hb, <- Hfold. reflexivity. }
  split; [exact Hfinal|]. split.
  - intros p s mp Heq Hp.
    destruct p as [|ev p'].
    + simpl in Hp. injection Hp as <-. left. auto.
    + simpl in Heq. injection Heq as <- Hrest.
      pose proof (Hall (Write t a :: p') s mp) as Hs'.
      cbn [run] in Hp. rewrite E in Hp.
      assert (Hsp' : spaced delay t (p' ++ s)) by (rewrite <- Hrest; exact Hsp).
      apply spaced_app in Hsp'. destruct Hsp' as [Hsp1 Hsp2].
      destruct (burst_shape p' t m1 mp Harm1 Hsp1 Hp) as [_ [H|H]].
      * left. destruct H as (_ & Hc' & Hs'' & _). split; congruence.
      * right. destruct H as (Hf & Hc' & Hs'' & _).
        assert (Hrs : run delay s mp = Some m').
        { apply Hs'; [simpl; rewrite Hrest; reflexivity|].
          cbn [run]. rewrite E. exact Hp. }
        destruct (fired_stops _ _ _ _ Hf Hsp2 Hrs) as [_ ->].
        rewrite Hc', Hs'', Hfinal, Hc. auto.
  - intros Hno.
    destruct Hcases as [H|H]; [|destruct H as (_ & _ & _ & H1); lia].
    destruct H as ([Htimer Hclock] & Hc' & Hs' & _).
    split; [congruence|].
    intros t' Hlate. unfold run, exec. rewrite Htimer.
    unfold setTimeout. rewrite Hclock in Hlate.
    destruct (Z.leb_spec (clock m') t') as [_|Hbad];
      [|pose proof (Z.le_max_r delay 0); lia].
    destruct (Z.leb_spec (lastWrite t rest + Z.max delay 0) t') as [_|Hbad];
      [|lia].
    eexists. split; [reflexivity|]. simpl.
    rewrite Hfinal, Hc', Hc. auto.
Qed.

End HookFacts.

(* ===================================================================== *)
(** ** Facts about the heap *)
(* ===================================================================== *)

Section HeapFacts.

Context {Env : Type}.

Lemma sameButValid_refl (f : ValidatedFieldState Env) : sameButValid f f.
Proof. repeat split. Qed.

Lemma sameButValid_trans (f g h : ValidatedFieldState Env) :
  sameButValid f g -> sameButValid g h -> sameButValid f h.
Proof.
  intros (A & B & C) (A' & B' & C'). repeat split; congruence.
Qed.

Lemma validOnly_refl (hp : Heap Env) : validOnly hp hp.
Proof.
  repeat split. intros r f H. exists f. split; [exact H | apply sameButValid_refl].
Qed.

Lemma validOnly_trans (a b c : Heap Env) :
  validOnly a b -> validOnly b c -> validOnly a c.
Proof.
  intros (Ho & Hl & Hr) (Ho' & Hl' & Hr'). repeat split; try congruence.
  intros r f H. destruct (Hr r f H) as (g & Hg & Hfg).
  destruct (Hr' r g Hg) as (h & Hh & Hgh).
  exists h. split; [exact Hh | eapply sameButValid_trans; eassumption].
Qed.

Lemma assign_valid_validOnly (r : ref) (b : bool) (hp : Heap Env) :
  validOnly hp (assign_valid r b hp).
Proof.
  unfold validOnly, assign_valid. simpl.
  split; [reflexivity|]. split; [apply length_alter|].
  intros r' f H. destruct (decide (r = r')) as [->|Hne].
  - exists (set_valid b f). rewrite list_lookup_alter_eq, H. simpl.
    split; [reflexivity | repeat split].
  - exists f. rewrite list_lookup_alter_ne by exact Hne.
    split; [exact H | apply sameButValid_refl].
Qed.

Lemma fieldsAt_validOnly (hp hp' : Heap Env) (fs : ref) :
  validOnly hp hp' -> fieldsAt hp' fs = fieldsAt hp fs.
Proof. intros (Ho & _). unfold fieldsAt. rewrite Ho. reflexivity. Qed.

Lemma getField_validOnly (hp hp' : Heap Env) (fs : ref) (name : string) :
  validOnly hp hp' ->
  match getField hp fs name with
  | Some (r, f) =>
      exists f', getField hp' fs name = Some (r, f') /\ sameButValid f f'
  | None => getField hp' fs name = None
  end.
Proof.
  intros Hv. pose proof (fieldsAt_validOnly _ _ fs Hv) as Hfs.
  destruct Hv as (_ & Hl & Hr).
  unfold getField. rewrite Hfs.
  destruct (prop_get name (fieldsAt hp fs)) as [r|]; [|reflexivity].
  destruct (fieldStates hp !! r) as [f|] eqn:E.
  - destruct (Hr r f E) as (f' & -> & Hs). exists f'. auto.
  - apply lookup_ge_None in E. rewrite <- Hl in E.
    apply lookup_ge_None in E. rewrite E. reflexivity.
Qed.

Lemma prop_get_In (name : string) (o : ValidatedFormFields) (r : ref) :
  prop_get name o = Some r -> In name (keys o).
Proof.
  induction o as [|[k r0] o IH]; simpl; [discriminate|].
  destruct (String.eqb_spec k name) as [->|Hne]; auto.
Qed.

Lemma getField_In (hp : Heap Env) (fs : ref) (name : string)
  (x : ref * ValidatedFieldState Env) :
  getField hp fs name = Some x -> In name (keys (fieldsAt hp fs)).
Proof.
  unfold getField.
  destruct (prop_get name (fieldsAt hp fs)) as [r|] eqn:E; [|discriminate].
  intros _. eapply prop_get_In; eassumption.
Qed.

(** Reading a record after an assignment to a [valid] flag. *)
Lemma getField_assign_valid (hp : Heap Env) (fs : ref) (name : string)
  (r : ref) (b : bool) :
  getField (assign_valid r b hp) fs name =
  match getField hp fs name with
  | Some (r', f) => Some (r', if decide (r = r') then set_valid b f else f)
  | None => None
  end.
Proof.
  unfold getField, assign_valid, fieldsAt. simpl.
  destruct (fieldsObjects hp !! fs) as [o|]; simpl.
  - destruct (prop_get name o) as [r'|]; [|reflexivity].
    destruct (decide (r = r')) as [->|Hne].
    + rewrite list_lookup_alter_eq.
      destruct (fieldStates hp !! r'); simpl; [|reflexivity].
      destruct (decide (r' = r')); [reflexivity | contradiction].
    + rewrite list_lookup_alter_ne by exact Hne.
      destruct (fieldStates hp !! r'); simpl; [|reflexivity].
      destruct (decide (r = r')); [contradiction | reflexivity].
  - reflexivity.
Qed.

End HeapFacts.

(* ===================================================================== *)
(** ** Facts about validateForm *)
(* ===================================================================== *)

Section ValidateFormFacts.

Context {Env : Type}.

Lemma passes_validOnly (env : Env) (hp hp' : Heap Env) (fs : ref) (name : string) :
  validOnly hp hp' -> passes env hp' fs name = passes env hp fs name.
Proof.
  intros Hv. pose proof (getField_validOnly hp hp' fs name Hv) as H.
  unfold passes. destruct (getField hp fs name) as [[r f]|].
  - destruct H as (f' & -> & _ & _ & Hc). rewrite Hc. reflexivity.
  - rewrite H. reflexivity.
Qed.

Lemma validateFormStep_spec (env : Env) (fs : ref) (acc : bool)
  (hp : Heap Env) (name : string) :
  fst (validateFormStep env fs (acc, hp) name) = acc && passes env hp fs name /\
  validOnly hp (snd (validateFormStep env fs (acc, hp) name)).
Proof.
  unfold validateFormStep, passes.
  destruct (getField hp fs name) as [[r f]|]; simpl.
  - destruct (validateCallback f env), (valid f), acc; simpl;
      (split; [reflexivity|]);
      first [apply validOnly_refl | apply assign_valid_validOnly].
  - destruct acc; simpl; (split; [reflexivity | apply validOnly_refl]).
Qed.

Lemma validateForm_fold (env : Env) (fs : ref) (hp0 : Heap Env)
  (names : list string) :
  forall (acc : bool) (hp : Heap Env),
    validOnly hp0 hp ->
    fst (fold_left (validateFormStep env fs) names (acc, hp))
    = acc && forallb (passes env hp0 fs) names /\
    validOnly hp0 (snd (fold_left (validateFormStep env fs) names (acc, hp))).
Proof.
  induction names as [|name names IH]; intros acc hp Hv;
    cbn [fold_left forallb].
  - rewrite andb_true_r. auto.
  - destruct (validateFormStep_spec env fs acc hp name) as [Hb Hstep].
    destruct (validateFormStep env fs (acc, hp) name) as [acc1 hp1].
    simpl in Hb, Hstep.
    assert (Hv1 : validOnly hp0 hp1) by (eapply validOnly_trans; eassumption).
    destruct (IH acc1 hp1 Hv1) as [Hfst Hsnd].
    split; [|exact Hsnd].
    rewrite Hfst, Hb, (passes_validOnly env hp0 hp fs name Hv).
    rewrite andb_assoc. reflexivity.
Qed.

(** [validateForm] on a ready form, in one equation. *)
Lemma validateForm_ready (env : Env) (w : World Env) :
  ready (validatorState w) = true ->
  exists hp' : Heap Env,
    validOnly (heap w) hp' /\
    validateForm env w =
    (forallb (passes env (heap w) (fields (validatorState w))) (registeredNames w),
     setValidatorState
       (BufferedState.Updater (fun _ hp'' => (spread (validatorState w), hp'')))
       {| heap := hp'; hook := hook w; clock := clock w;
          scrollYRef := scrollYRef w;
          pending := pending w ++ measureYOffsets w;
          effects := effects w |}).
Proof.
  intros Hready. unfold validateForm. rewrite Hready. simpl.
  destruct (validateForm_fold env (fields (validatorState w)) (heap w)
              (registeredNames w) true (heap w) (validOnly_refl _)) as [Hb Hv].
  unfold registeredNames in *.
  destruct (fold_left _ _ _) as [b hp'].
  simpl in Hb, Hv. exists hp'. split; [exact Hv|]. rewrite Hb. reflexivity.
Qed.

(** ** C1 *)


(** ** C7 *)

(** C7: while [ready] is [false], [validateForm] returns [false] whatever
    the fields and their predicates are; it invokes nothing and writes
    nothing. *)
Theorem validateForm_not_ready (env : Env) (w : World Env) :
  ready (validatorState w) = false ->
  validateForm env w = (false, w).
Proof.
  intros Hready. unfold validateForm. rewrite Hready. reflexivity.
Qed.

End ValidateFormFacts.

(* ===================================================================== *)
(** ** Facts about the other registry operations *)
(* ===================================================================== *)

Section RegistryFacts.

Context {Env : Type}.

Lemma spread_id (s : ValidatorState) : spread s = s.
Proof. destruct s. reflexivity. Qed.

(** What one call of the buffered setter does to the world, for an updater
    that returns [(s', hp')] on the buffered state and the heap. *)
Lemma setValidatorState_updater
  (f : ValidatorState -> Heap Env -> ValidatorState * Heap Env) (w : World Env) :
  setValidatorState (BufferedState.Updater f) w =
  {| heap := snd (f (buffered w) (heap w));
     hook := {| BufferedState.state := validatorState w;
                BufferedState.stateBufferRef := fst (f (buffered w) (heap w));
                BufferedState.commitTimeoutRef :=
                  Some (BufferedState.setTimeout DELAY (clock w)) |};
     clock := clock w;
     scrollYRef := scrollYRef w;
     pending := pending w;
     effects := effects w ++ [SetValidatorState] |}.
Proof.
  unfold setValidatorState, BufferedState.setState, buffered, validatorState.
  destruct (f _ _) as [s' hp']. reflexivity.
Qed.

(** Letting time pass and then the timer fire commits the buffered state
    and touches nothing on the heap. *)
Lemma commit_after_tick (t : Z) (w w1 w2 : World Env) :
  tick t w = Some w1 ->
  timerFires w1 = Some w2 ->
  heap w2 = heap w /\ validatorState w2 = buffered w.
Proof.
  unfold tick, timerFires. intros Htick Hfire.
  destruct (clock w <=? t); [|discriminate]. injection Htick as <-.
  cbn [hook clock] in Hfire.
  destruct (BufferedState.commitTimeoutRef (hook w)); [|discriminate].
  destruct (_ <=? _); [|discriminate]. injection Hfire as <-.
  split; reflexivity.
Qed.

Lemma prop_get_replace (name : string) (r : ref) (o : ValidatedFormFields) :
  prop_get name o <> None -> prop_get name (prop_replace name r o) = Some r.
Proof.
  induction o as [|[k r0] o IH]; cbn [prop_replace prop_get]; [congruence|].
  destruct (String.eqb k name) eqn:E; cbn [prop_get]; rewrite E; auto.
Qed.

Lemma prop_get_insert (name : string) (r : ref) (o : ValidatedFormFields) :
  prop_get name o = None -> prop_get name (prop_insert name r o) = Some r.
Proof.
  induction o as [|[k r0] o IH]; cbn [prop_insert prop_get].
  - rewrite String.eqb_refl. reflexivity.
  - destruct (String.eqb k name) eqn:E; [discriminate|]. intros H.
    destruct (listedBefore name k); cbn [prop_get].
    + rewrite String.eqb_refl. reflexivity.
    + rewrite E. exact (IH H).
Qed.

Lemma prop_get_set (name : string) (r : ref) (o : ValidatedFormFields) :
  prop_get name (prop_set name r o) = Some r.
Proof.
  unfold prop_set. destruct (prop_get name o) as [r0|] eqn:E.
  - apply prop_get_replace. congruence.
  - apply prop_get_insert. exact E.
Qed.

(** When the committed state holds a record under [name], the guard of
    [addField] sees it: one warning, and the heap, both states and the
    pending timeout are as before. *)
Lemma addField_committed_duplicate (name : string) (isValid : bool)
  (callback : Env -> bool) (measure : Env -> Z) (w : World Env)
  (x : ref * ValidatedFieldState Env) :
  getField (heap w) (fields (validatorState w)) name = Some x ->
  addField name isValid callback measure w
  = emit (ConsoleWarn (duplicateWarning name)) w /\
  heap (addField name isValid callback measure w) = heap w /\
  hook (addField name isValid callback measure w) = hook w /\
  effects (addField name isValid callback measure w)
  = effects w ++ [ConsoleWarn (duplicateWarning name)].
Proof.
  intros H. unfold addField. rewrite H. repeat split.
Qed.

(** When the guard of [addField] finds nothing in the committed state, the
    call writes a fresh record under [name] into the buffered state,
    whatever the buffered state held under that name, and warns about
    nothing. *)
Lemma addField_unguarded (name : string) (isValid : bool)
  (callback : Env -> bool) (measure : Env -> Z) (w : World Env) :
  getField (heap w) (fields (validatorState w)) name = None ->
  inheritedName name = false ->
  effects (addField name isValid callback measure w)
  = effects w ++ [SetValidatorState] /\
  getField (heap (addField name isValid callback measure w))
           (fields (buffered (addField name isValid callback measure w))) name
  = Some (length (fieldStates (heap w)),
          {| valid := isValid; yOffset := 0;
             measureYOffset := measure; validateCallback := callback |}).
Proof.
  intros H Hown. unfold addField. rewrite H, Hown.
  rewrite setValidatorState_updater.
  cbn [heap effects buffered hook fst snd BufferedState.stateBufferRef fields].
  split; [reflexivity|].
  unfold getField, fieldsAt. cbn [fieldsObjects fieldStates].
  rewrite list_lookup_middle by reflexivity.
  rewrite prop_get_set.
  rewrite list_lookup_middle by reflexivity. reflexivity.
Qed.

Lemma resetStep_validOnly (fs : ref) (hp : Heap Env) (name : string) :
  validOnly hp (resetStep fs hp name).
Proof.
  unfold resetStep. destruct (getField hp fs name) as [[r f]|];
    [apply assign_valid_validOnly | apply validOnly_refl].
Qed.

Lemma resetFold_spec (fs : ref) (names : list string) :
  forall hp : Heap Env,
    validOnly hp (fold_left (resetStep fs) names hp) /\
    forall (name : string) (r : ref) (f : ValidatedFieldState Env),
      getField (fold_left (resetStep fs) names hp) fs name = Some (r, f) ->
      In name names \/
      (exists f0, getField hp fs name = Some (r, f0) /\ valid f0 = true) ->
      valid f = true.
Proof.
  induction names as [|k rest IH]; intros hp; cbn [fold_left].
  - split; [apply validOnly_refl|].
    intros name r f Hg [[]|(f0 & Hg0 & Hv)]. congruence.
  - destruct (IH (resetStep fs hp k)) as [Hvo Hall].
    pose proof (resetStep_validOnly fs hp k) as Hstep.
    split; [eapply validOnly_trans; eassumption|].
    intros name r f Hg Hcase. apply (Hall name r f Hg).
    assert (Hback : exists f0, getField hp fs name = Some (r, f0)).
    { pose proof (getField_validOnly hp _ fs name
                    (validOnly_trans _ _ _ Hstep Hvo)) as H.
      destruct (getField hp fs name) as [[r0 f0]|].
      - destruct H as (f' & H & _). rewrite H in Hg.
        injection Hg as -> _. eauto.
      - congruence. }
    destruct Hback as (f0 & Hg0).
    destruct Hcase as [[->|Hin]|(f1 & Hg1 & Hv1)].
    + right. unfold resetStep. rewrite Hg0.
      rewrite getField_assign_valid, Hg0.
      destruct (decide (r = r)); [|contradiction].
      eexists. split; reflexivity.
    + left. exact Hin.
    + right. unfold resetStep.
      destruct (getField hp fs k) as [[rk fk]|].
      * rewrite getField_assign_valid, Hg1.
        destruct (decide (rk = r)); eexists; (split; [reflexivity|]);
          [reflexivity | exact Hv1].
      * eauto.
Qed.

(** ** C5 *)

(** C5: [resetValidations] is one call of the buffered setter.  After it,
    every field of the registry it wrote has [valid = true], whatever the
    predicates would return (none is invoked); the keys of the registry,
    and every record's offset and closures, are as before.  Once the write
    is committed, every field of the committed state is valid. *)
Theorem resetValidations_sets_every_field_valid (w : World Env) :
  (forall (name : string) (r : ref) (f : ValidatedFieldState Env),
      getField (heap (resetValidations w))
               (fields (buffered (resetValidations w))) name = Some (r, f) ->
      valid f = true) /\
  effects (resetValidations w) = effects w ++ [SetValidatorState] /\
  buffered (resetValidations w) = buffered w /\
  validatorState (resetValidations w) = validatorState w /\
  validOnly (heap w) (heap (resetValidations w)) /\
  (forall (t : Z) (w1 w2 : World Env),
      tick t (resetValidations w) = Some w1 ->
      timerFires w1 = Some w2 ->
      forall (name : string) (r : ref) (f : ValidatedFieldState Env),
        getField (heap w2) (fields (validatorState w2)) name = Some (r, f) ->
        valid f = true).
Proof.
  unfold resetValidations. rewrite setValidatorState_updater.
  cbn [heap effects buffered validatorState hook fst snd
       BufferedState.state BufferedState.stateBufferRef].
  rewrite spread_id.
  fold (@resetStep Env (fields (buffered w))).
  destruct (resetFold_spec (fields (buffered w))
              (keys (fieldsAt (heap w) (fields (buffered w)))) (heap w))
    as [Hvo Hall].
  assert (Hfields : forall name r f,
             getField (fold_left (resetStep (fields (buffered w)))
                         (keys (fieldsAt (heap w) (fields (buffered w))))
                         (heap w))
                      (fields (buffered w)) name = Some (r, f) ->
             valid f = true).
  { intros name r f Hg. apply (Hall name r f Hg). left.
    rewrite <- (fieldsAt_validOnly _ _ (fields (buffered w)) Hvo).
    eapply getField_In; eassumption. }
  repeat split; try assumption; try reflexivity; try apply Hvo.
  intros t w1 w2 Htick Hfire.
  destruct (commit_after_tick _ _ _ _ Htick Hfire) as [-> ->].
  exact Hfields.
Qed.

(** ** C6 *)


(** ** C10, as amended *)

(** C10: a call of [validateForm] on a ready form performs exactly one
    buffered write, also when no validity flag changes.  Its updater ignores
    the buffered value: the buffered state becomes a shallow copy of the
    committed state seen by the call (same [ready], same fields object), so
    a field that [addField] put into the buffered state since the last
    commit is no longer there.  Nothing is copied below the top level:
    the call only assigns [valid] flags, and the fields objects and every
    record's offset and closures stay as the earlier writes left them. *)
Theorem validateForm_overwrites_buffer_with_committed_snapshot
  (env : Env) (w : World Env) :
  ready (validatorState w) = true ->
  effects (snd (validateForm env w)) = effects w ++ [SetValidatorState] /\
  buffered (snd (validateForm env w)) = validatorState w /\
  validatorState (snd (validateForm env w)) = validatorState w /\
  validOnly (heap w) (heap (snd (validateForm env w))) /\
  (forall name : string,
      getField (heap w) (fields (validatorState w)) name = None ->
      getField (heap (snd (validateForm env w)))
               (fields (buffered (snd (validateForm env w)))) name = None).
Proof.
  intros Hready.
  destruct (validateForm_ready env w Hready) as (hp' & Hvo & ->).
  cbn [snd]. rewrite setValidatorState_updater.
  cbn [heap effects buffered validatorState hook fst snd
       BufferedState.state BufferedState.stateBufferRef].
  rewrite spread_id. repeat split; try apply Hvo.
  intros name Hnone.
  pose proof (getField_validOnly (heap w) hp' (fields (validatorState w)) name Hvo)
    as H.
  unfold validatorState in *. rewrite Hnone in H. exact H.
Qed.

End RegistryFacts.

(* ===================================================================== *)
(** ** The ready flag along every run *)
(* ===================================================================== *)

Section ReadyFacts.

Context {Env : Type}.
Variable platformIsWeb : bool.

Local Abbreviation perform' := (@perform Env platformIsWeb).
Local Abbreviation performAll' := (@performAll Env platformIsWeb).






(** ** C8 *)


End ReadyFacts.

(* ===================================================================== *)
(** ** Facts about the scroll coordinator *)
(* ===================================================================== *)

Section ScrollFacts.

Context {Env : Type}.

Local Abbreviation Entry := (string * option (ValidatedFieldState Env))%type.

Lemma invalidOffsets_In (es : list Entry) (y : Z) :
  In y (invalidOffsets es) <->
  exists (k : string) (f : ValidatedFieldState Env),
    In (k, Some f) es /\ valid f = false /\ yOffset f = y.
Proof.
  induction es as [|[k [f|]] es IH]; cbn [invalidOffsets In].
  - split; [intros [] | intros (k & f & [] & _)].
  - destruct (valid f) eqn:V; cbn [In]; rewrite ?IH; split.
    + intros (k' & f' & Hin & H). exists k', f'. auto.
    + intros (k' & f' & [[= -> ->]|Hin] & Hv & Hy);
        [congruence | exists k', f'; auto].
    + intros [<-|(k' & f' & Hin & H)]; [exists k, f; auto | exists k', f'; auto].
    + intros (k' & f' & [[= -> ->]|Hin] & Hv & Hy);
        [left; exact Hy | right; exists k', f'; auto].
  - rewrite IH. split.
    + intros (k' & f' & Hin & H). exists k', f'. auto.
    + intros (k' & f' & [[=]|Hin] & H). exists k', f'. auto.
Qed.

(** What the [forEach] of [scrollToInvalidFields] leaves in its two local
    variables. *)
Lemma scanInvalid_fold (es : list Entry) :
  forall (b : bool) (off : option Z),
    match invalidOffsets es with
    | [] => fold_left scanInvalid es (b, off) = (b, off)
    | _ :: _ =>
        exists o : Z,
          fold_left scanInvalid es (b, off) = (true, Some o) /\
          (In o (invalidOffsets es) \/ off = Some o) /\
          (forall y, In y (invalidOffsets es) -> o <= y) /\
          (forall o0, off = Some o0 -> o <= o0)
    end.
Proof.
  induction es as [|[k [f|]] es IH]; intros b off;
    cbn [invalidOffsets fold_left]; [reflexivity| |apply IH].
  set (m := match off with
            | Some o => if yOffset f <? o then Some (yOffset f) else Some o
            | None => Some (yOffset f)
            end).
  assert (Hstep : scanInvalid (b, off) (k, Some f)
                  = if valid f then (b, off) else (true, m)).
  { unfold scanInvalid. cbn [snd]. destruct (valid f); reflexivity. }
  rewrite Hstep. clear Hstep.
  destruct (valid f) eqn:V; [apply IH|].
  assert (Hm : exists mo, m = Some mo /\ mo <= yOffset f /\
                          (mo = yOffset f \/ off = Some mo) /\
                          (forall o0, off = Some o0 -> mo <= o0)).
  { unfold m. destruct off as [o|].
    - destruct (Z.ltb_spec (yOffset f) o).
      + exists (yOffset f). repeat split; auto; try lia.
        intros o0 [= <-]. lia.
      + exists o. repeat split; auto; try lia. intros o0 [= <-]. lia.
    - exists (yOffset f). repeat split; auto; try lia. intros o0 [=]. }
  destruct Hm as (mo & Hmo & Hle & Hsrc & Hlow).
  rewrite Hmo. clear Hmo m.
  specialize (IH true (Some mo)).
  destruct (invalidOffsets es) as [|y ys] eqn:E.
  - exists mo. rewrite IH. split; [reflexivity|]. split; [|split].
    + destruct Hsrc as [-> | ->]; [left; left; reflexivity | right; reflexivity].
    + intros y [<-|[]]. exact Hle.
    + exact Hlow.
  - destruct IH as (o & Hfold & Hin & Hmin & Hprev).
    pose proof (Hprev mo eq_refl) as Hom.
    exists o. split; [exact Hfold|]. split; [|split].
    + destruct Hin as [Hin|[= ->]].
      * left. right. exact Hin.
      * destruct Hsrc as [-> | ->]; [left; left; reflexivity | right; reflexivity].
    + intros y' [<-|Hy']; [lia | apply Hmin; exact Hy'].
    + intros o0 H0. specialize (Hlow o0 H0). lia.
Qed.

(** ** C2, as amended *)

(** C2: provided the form's scroll view resolves to a scrollable node,
    [scrollToInvalidFields] issues a scroll command when some field record
    has [valid = false]; its target is [max (o - m) 0], where [o] is the
    smallest offset among the invalid records and [m] the margin, so it is
    never negative; when no record is invalid it issues no command. *)
Theorem scrollToInvalidFields_targets_topmost_invalid
  (scrollView : option Utils.Node) (node : Utils.Node) (m : Z)
  (hp : Heap Env) (st : ValidatorState) :
  Utils.getScrollableNode scrollView = Some node ->
  ((exists (k : string) (f : ValidatedFieldState Env),
       In (k, Some f) (entries hp (fields st)) /\ valid f = false) ->
   exists o : Z,
     scrollToInvalidFields scrollView m hp st
     = Some (node, {| Utils.offset_x := None;
                      Utils.offset_y := Some (Z.max (o - m) 0);
                      Utils.animated := true |}) /\
     (exists (k : string) (f : ValidatedFieldState Env),
         In (k, Some f) (entries hp (fields st)) /\
         valid f = false /\ yOffset f = o) /\
     (forall (k : string) (f : ValidatedFieldState Env),
         In (k, Some f) (entries hp (fields st)) ->
         valid f = false -> o <= yOffset f) /\
     0 <= Z.max (o - m) 0) /\
  ((forall (k : string) (f : ValidatedFieldState Env),
       In (k, Some f) (entries hp (fields st)) -> valid f = true) ->
   scrollToInvalidFields scrollView m hp st = None).
Proof.
  intros Hnode. unfold scrollToInvalidFields. rewrite Hnode.
  pose proof (scanInvalid_fold (entries hp (fields st)) false None) as Hscan.
  split.
  - intros (k & f & Hin & Hv).
    assert (Hy : In (yOffset f) (invalidOffsets (entries hp (fields st))))
      by (apply invalidOffsets_In; eauto).
    destruct (invalidOffsets (entries hp (fields st))) as [|y ys] eqn:E;
      [destruct Hy|].
    destruct Hscan as (o & -> & [Ho|[=]] & Hmin & _).
    exists o. split; [reflexivity|]. split; [|split].
    + rewrite <- E in Ho. apply invalidOffsets_In in Ho. exact Ho.
    + intros k' f' Hin' Hv'. apply Hmin. rewrite <- E.
      apply invalidOffsets_In. eauto.
    + apply Z.le_max_r.
  - intros Hall.
    destruct (invalidOffsets (entries hp (fields st))) as [|y ys] eqn:E.
    + rewrite Hscan. reflexivity.
    + assert (Hy : In y (invalidOffsets (entries hp (fields st))))
        by (rewrite E; left; reflexivity).
      apply invalidOffsets_In in Hy. destruct Hy as (k & f & Hin & Hv & _).
      rewrite (Hall k f Hin) in Hv. discriminate.
Qed.

(** With a node that has a [scrollTo] method, the command is that method
    called with the target as [y]. *)
Lemma scrollTo_on_scrollTo_node (node : Utils.Node) (offset : Utils.ScrollOffset) :
  Utils.has_scrollTo node = true ->
  Utils.scrollTo (Some node) offset
  = Some (Utils.call_scrollTo (Utils.offset_x offset) (Utils.offset_y offset)
                              (Utils.animated offset)).
Proof. intros H. unfold Utils.scrollTo. rewrite H. reflexivity. Qed.

End ScrollFacts.

(* ===================================================================== *)
(** ** Facts about isEmpty *)
(* ===================================================================== *)

Section IsEmptyFacts.

Import Utils.

Lemma isEmpty_iterable (items : list JSValue) (flag : bool) :
  isEmpty (JSIterable items) flag = forallb (fun item => isEmpty item flag) items.
Proof.
  cbn [isEmpty]. induction items as [|item items IH]; [reflexivity|].
  cbn [forallb]. rewrite <- IH. destruct (isEmpty item flag); reflexivity.
Qed.

Lemma isEmpty_object (props : list (string * JSValue)) (flag : bool) :
  isEmpty (JSObject props) flag = forallb (fun p => isEmpty (snd p) flag) props.
Proof.
  cbn [isEmpty]. induction props as [|[k v] props IH]; [reflexivity|].
  cbn [forallb snd]. rewrite <- IH. destruct (isEmpty v flag); reflexivity.
Qed.

(** ** C9, as amended *)

(** C9: [isEmpty] classifies [null], [undefined] and a collection without
    members (an empty array, an empty object) as empty whatever the flag,
    and a collection is empty exactly when all its members are.  The empty
    string is empty exactly when [ignoreFalsyValues] is set.  A non-empty
    string, such as ["0"], is never empty, whatever the flag. *)
Theorem isEmpty_classification (flag : bool) :
  isEmpty JSNull flag = true /\
  isEmpty JSUndefined flag = true /\
  isEmpty (JSIterable []) flag = true /\
  isEmpty (JSObject []) flag = true /\
  (forall items : list JSValue,
      isEmpty (JSIterable items) flag
      = forallb (fun item => isEmpty item flag) items) /\
  (forall props : list (string * JSValue),
      isEmpty (JSObject props) flag
      = forallb (fun p => isEmpty (snd p) flag) props) /\
  isEmpty (JSString EmptyString) flag = flag /\
  (forall s : string, s <> EmptyString -> isEmpty (JSString s) flag = false) /\
  isEmpty (JSString "0") flag = false.
Proof.
  do 4 (split; [reflexivity|]).
  split; [intros items; apply isEmpty_iterable|].
  split; [intros props; apply isEmpty_object|].
  split; [destruct flag; reflexivity|].
  split; [|destruct flag; reflexivity].
  intros [|c s] Hs; [contradiction|]. destruct flag; reflexivity.
Qed.

(** C9 as first stated fails on the empty string, which is not empty
    under the default flag, and on ["0"], on which the flag has no
    influence. *)
Lemma isEmpty_empty_string_default_not_empty :
  isEmpty (JSString EmptyString) false = false /\
  isEmpty (JSString "0") true = isEmpty (JSString "0") false.
Proof. split; reflexivity. Qed.

End IsEmptyFacts.

(* ===================================================================== *)
(** ** Concrete runs *)
(* ===================================================================== *)

Section BurstRun.

Import BufferedState.

(** C4 on the sample burst with [delay = 50]: nothing is committed while
    the writes arrive, and the timer callback at 70 or later commits [20]. *)
Lemma buffered_burst_witness :
  run 50 (Write 0 (NewValue 1) :: burstRest) burstStart = Some burstEnd /\
  spaced 50 0 burstRest /\
  stateBufferRef (hook burstEnd) = 20 /\
  (forall (p s : list (Event Z unit)) (mp : Machine Z unit),
      Write 0 (NewValue 1) :: burstRest = p ++ s ->
      run 50 p burstStart = Some mp ->
      (commits mp = [] /\ state (hook mp) = 0) \/
      (commits mp = [20] /\ state (hook mp) = 20)) /\
  (timeouts burstRest = O ->
   commits burstEnd = [] /\
   forall t' : Z,
     20 + 50 <= t' ->
     exists m'' : Machine Z unit,
       run 50 [Timeout t'] burstEnd = Some m'' /\
       state (hook m'') = 20 /\
       commits m'' = [20]).
Proof.
  split; [reflexivity|].
  split; [cbn; lia|].
  exact (buffered_burst_commits_only_final 50 burstStart burstEnd 0
           (NewValue 1) burstRest eq_refl
           (conj (eq_refl : (10 ?= 0 + 50) = Lt)
                 (conj (eq_refl : (20 ?= 10 + 50) = Lt) I))).
Defined.

End BurstRun.

Section ConcreteRuns.


(** On that form the aggregate is [false], and the flag of [a] is written
    back. *)
Example validateForm_mountedForm :
  fst (validateForm tt mountedForm) = false /\
  option_map (fun p => valid (snd p))
    (getField (heap (snd (validateForm tt mountedForm)))
              (fields (buffered (snd (validateForm tt mountedForm)))) "a")
  = Some false.
Proof. split; reflexivity. Qed.

(** [validateField] on the same form: field [a] fails and its stored flag
    is [true], so there is one write and the flag becomes [false]; field
    [b] passes as stored, so nothing happens; [zip] is unknown. *)
Example validateField_mountedForm :
  effects (validateField tt "a" mountedForm)
  = effects mountedForm ++ [SetValidatorState] /\
  option_map (fun p => valid (snd p))
    (getField (heap (validateField tt "a" mountedForm))
              (fields (buffered (validateField tt "a" mountedForm))) "a")
  = Some false /\
  validateField tt "b" mountedForm = mountedForm /\
  effects (validateField tt "zip" mountedForm)
  = effects mountedForm ++ [ConsoleLog "Trying to validate non-existing field!"].
Proof. repeat split. Qed.

(** [resetValidations] after a failed [validateForm]: the flag of [a],
    [false] after the validation, is [true] again although its predicate
    still fails. *)
Example resetValidations_mountedForm :
  let validated := snd (validateForm tt mountedForm) in
  option_map (fun p => (valid (snd p), validateCallback (snd p) tt))
    (getField (heap validated) (fields (buffered validated)) "a")
  = Some (false, false) /\
  option_map (fun p => (valid (snd p), validateCallback (snd p) tt))
    (getField (heap (resetValidations validated))
              (fields (buffered (resetValidations validated))) "a")
  = Some (true, false).
Proof. split; reflexivity. Qed.

(** C7 on a form whose first commit has not happened yet. *)
Lemma validateForm_not_ready_witness :
  ready (validatorState mountingForm) = false /\
  validateForm tt mountingForm = (false, mountingForm).
Proof.
  split; [reflexivity|].
  exact (validateForm_not_ready tt mountingForm eq_refl).
Defined.

(** C10, as amended, on a form where field [a] is committed and field [c]
    has been added since: a timeout is pending, the buffered state holds
    [c] and the committed one does not.  Both predicates pass and both
    flags are [true], so [validateForm] changes no flag; it writes all the
    same, and [c] is gone from the buffered state. *)
Lemma validateForm_snapshot_witness :
  ready (validatorState withBufferedField) = true /\
  BufferedState.commitTimeoutRef (hook withBufferedField) = Some 100 /\
  getField (heap withBufferedField) (fields (buffered withBufferedField)) "c"
  = Some (1%nat, mkField true 0 (measuresAt 0) passing) /\
  getField (heap withBufferedField) (fields (validatorState withBufferedField)) "c"
  = None /\
  fields (buffered withBufferedField) <> fields (validatorState withBufferedField) /\
  heap (snd (validateForm tt withBufferedField)) = heap withBufferedField /\
  effects (snd (validateForm tt withBufferedField))
  = effects withBufferedField ++ [SetValidatorState] /\
  buffered (snd (validateForm tt withBufferedField))
  = validatorState withBufferedField /\
  validatorState (snd (validateForm tt withBufferedField))
  = validatorState withBufferedField /\
  validOnly (heap withBufferedField)
            (heap (snd (validateForm tt withBufferedField))) /\
  (forall name : string,
      getField (heap withBufferedField)
               (fields (validatorState withBufferedField)) name = None ->
      getField (heap (snd (validateForm tt withBufferedField)))
               (fields (buffered (snd (validateForm tt withBufferedField)))) name
      = None).
Proof.
  split; [reflexivity|]. split; [reflexivity|]. split; [reflexivity|].
  split; [reflexivity|]. split; [discriminate|]. split; [reflexivity|].
  exact (validateForm_overwrites_buffer_with_committed_snapshot
           tt withBufferedField eq_refl).
Defined.



(** *** validateForm and writes that are still buffered *)

(** C10 as first stated fails here.  The offset update was issued through
    the buffered setter and was not committed when [validateForm] ran (a timeout is pending, the offset of
    the last commit was [0]), and yet the state committed after
    [validateForm] carries it: the record is shared, and the update was
    made in place. *)
Lemma buffered_offset_update_survives_validateForm :
  ready (validatorState offsetBuffered) = true /\
  effects offsetBuffered = effects oneField ++ [SetValidatorState] /\
  BufferedState.commitTimeoutRef (hook offsetBuffered) = Some 100 /\
  option_map (fun p => yOffset (snd p))
    (getField (heap oneField) (fields (validatorState oneField)) "a") = Some 0 /\
  exists w : World unit,
    performAll false [DoValidateForm tt; DoTick 100; DoTimerFires] offsetBuffered
    = Some w /\
    option_map (fun p => yOffset (snd p))
      (getField (heap w) (fields (validatorState w)) "a") = Some 120.
Proof.
  do 4 (split; [reflexivity|]).
  eexists. split; reflexivity.
Qed.

(** A field added in the window before [validateForm] is dropped, and the
    aggregate does not see its failing predicate. *)
Example field_added_before_validateForm_is_dropped :
  exists w : World unit,
    performAll false [DoAddField "b" true failing (measuresAt 0)] oneField
    = Some w /\
    (exists x, getField (heap w) (fields (buffered w)) "b" = Some x) /\
    fst (validateForm tt w) = true /\
    getField (heap (snd (validateForm tt w)))
             (fields (buffered (snd (validateForm tt w)))) "b" = None.
Proof.
  eexists. split; [reflexivity|]. split; [eexists; reflexivity|].
  split; reflexivity.
Qed.

(** *** addField on a name that is taken *)

(** C3: two registrations of the same name before any commit.  The guard
    of the second call reads the committed state, where the first
    registration has not arrived, so no warning is emitted, and the record
    the registry ends up with is the one of the second call. *)
Theorem addField_twice_before_commit_keeps_second :
  let w1 := addField "email" true passing (measuresAt 10) (@initialWorld unit) in
  let w2 := addField "email" false failing (measuresAt 20) w1 in
  option_map (fun p => (valid (snd p), validateCallback (snd p) tt,
                        measureYOffset (snd p) tt))
    (getField (heap w1) (fields (buffered w1)) "email") = Some (true, true, 10) /\
  effects w2 = [SetValidatorState; SetValidatorState] /\
  option_map (fun p => (valid (snd p), validateCallback (snd p) tt,
                        measureYOffset (snd p) tt))
    (getField (heap w2) (fields (buffered w2)) "email") = Some (false, false, 20) /\
  exists w : World unit,
    performAll false [DoMountEffect; DoTick 50; DoTimerFires] w2 = Some w /\
    keys (fieldsAt (heap w) (fields (validatorState w))) = ["email"%string] /\
    option_map (fun p => (valid (snd p), validateCallback (snd p) tt,
                          measureYOffset (snd p) tt))
      (getField (heap w) (fields (validatorState w)) "email")
    = Some (false, false, 20).
Proof.
  do 3 (split; [reflexivity|]).
  eexists. split; [reflexivity|]. split; reflexivity.
Qed.

(** *** The scroll coordinator on the specification's example *)

Example scroll_targets_sixty :
  scrollToInvalidFields (Some scrollNode) 40 threeFields threeFieldsState
  = Some (scrollNode,
          {| Utils.offset_x := None; Utils.offset_y := Some 60;
             Utils.animated := true |}) /\
  Utils.scrollTo (Some scrollNode)
    {| Utils.offset_x := None; Utils.offset_y := Some 60; Utils.animated := true |}
  = Some (Utils.call_scrollTo None (Some 60) true).
Proof. split; reflexivity. Qed.

(** C2, as amended, on the specification's example. *)
Lemma scrollToInvalidFields_witness :
  Utils.getScrollableNode (Some scrollNode) = Some scrollNode /\
  ((exists (k : string) (f : ValidatedFieldState unit),
       In (k, Some f) (entries threeFields (fields threeFieldsState)) /\
       valid f = false) ->
   exists o : Z,
     scrollToInvalidFields (Some scrollNode) 40 threeFields threeFieldsState
     = Some (scrollNode, {| Utils.offset_x := None;
                            Utils.offset_y := Some (Z.max (o - 40) 0);
                            Utils.animated := true |}) /\
     (exists (k : string) (f : ValidatedFieldState unit),
         In (k, Some f) (entries threeFields (fields threeFieldsState)) /\
         valid f = false /\ yOffset f = o) /\
     (forall (k : string) (f : ValidatedFieldState unit),
         In (k, Some f) (entries threeFields (fields threeFieldsState)) ->
         valid f = false -> o <= yOffset f) /\
     0 <= Z.max (o - 40) 0) /\
  ((forall (k : string) (f : ValidatedFieldState unit),
       In (k, Some f) (entries threeFields (fields threeFieldsState)) ->
       valid f = true) ->
   scrollToInvalidFields (Some scrollNode) 40 threeFields threeFieldsState = None).
Proof.
  split; [reflexivity|].
  exact (scrollToInvalidFields_targets_topmost_invalid
           (Some scrollNode) scrollNode 40 threeFields threeFieldsState eq_refl).
Defined.

(** C2 as first stated fails here: without a scroll view there is no
    scrollable node, and no command is issued although two records are
    invalid. *)
Lemma no_scroll_without_scrollable_node :
  (exists (k : string) (f : ValidatedFieldState unit),
      In (k, Some f) (entries threeFields (fields threeFieldsState)) /\
      valid f = false) /\
  scrollToInvalidFields None 40 threeFields threeFieldsState = None.
Proof.
  split; [|reflexivity].
  exists "a"%string, (mkField false 300 (measuresAt 300) failing).
  split; [left; reflexivity | reflexivity].
Qed.

End ConcreteRuns.

(* ===================================================================== *)
(** * Further properties of the code *)
(* ===================================================================== *)

(* ===================================================================== *)
(** ** useBufferedState along arbitrary runs *)
(* ===================================================================== *)

Section HookRuns.

Import BufferedState.

Context {ValueT Store : Type}.
Variable delay : Z.

Local Abbreviation Machine := (BufferedState.Machine ValueT Store).
Local Abbreviation Event := (BufferedState.Event ValueT Store).

Lemma writes_app (p s : list Event) : writes (p ++ s) = (writes p + writes s)%nat.
Proof.
  induction p as [|[t a|t] p IH]; cbn [writes app]; auto. rewrite IH. reflexivity.
Qed.

Lemma lastWrite_app (prev : Z) (p s : list Event) :
  lastWrite prev (p ++ s) = lastWrite (lastWrite prev p) s.
Proof.
  revert prev. induction p as [|[t a|t] p IH]; intros prev; cbn [lastWrite app]; auto.
Qed.

Lemma hookInv_mounted (value : ValueT) (st : Store) (t0 : Z) :
  hookInv delay value st t0 [] (mounted value st t0).
Proof.
  unfold hookInv, mounted. cbn. repeat split; auto; try discriminate.
Qed.

Lemma hookInv_exec (value : ValueT) (st : Store) (t0 : Z)
  (evs : list Event) (ev : Event) (m m' : Machine) :
  hookInv delay value st t0 evs m ->
  exec delay ev m = Some m' ->
  hookInv delay value st t0 (evs ++ [ev]) m'.
Proof.
  intros (Hbuf & Hlast & Hsync & Hdue & Hlen & _ & Hlt) Hexec.
  unfold hookInv. rewrite foldWrites_app, lastWrite_app, writes_app.
  destruct ev as [t a|t].
  - destruct (exec_write delay _ _ _ _ Hexec) as ([Htimer Hclock] & Hc & Hs & Hb).
    cbn [foldWrites lastWrite writes]. rewrite <- Hbuf, Hb, Hc, Hs, Htimer.
    repeat split; auto; try discriminate; try lia.
    intros due [= <-]. reflexivity.
  - unfold exec in Hexec.
    destruct (clock m <=? t); [|discriminate].
    destruct (commitTimeoutRef (hook m)) as [due|] eqn:Htimer; [|discriminate].
    destruct (due <=? t); [|discriminate]. injection Hexec as <-.
    cbn [foldWrites lastWrite writes hook store commits timeoutCallback
         state stateBufferRef commitTimeoutRef].
    rewrite List.last_last, length_app. cbn [length].
    specialize (Hlt due eq_refl).
    repeat split; auto; try discriminate; try lia.
Qed.

Lemma hookInv_run (value : ValueT) (st : Store) (t0 : Z) (evs : list Event) :
  forall (done : list Event) (m m' : Machine),
    hookInv delay value st t0 done m ->
    run delay evs m = Some m' ->
    hookInv delay value st t0 (done ++ evs) m'.
Proof.
  induction evs as [|ev evs IH]; intros done m m' Hinv Hrun; cbn [run] in Hrun.
  - injection Hrun as <-. rewrite app_nil_r. exact Hinv.
  - destruct (exec delay ev m) as [m1|] eqn:E; [|discriminate].
    replace (done ++ ev :: evs) with ((done ++ [ev]) ++ evs)
      by (rewrite <- app_assoc; reflexivity).
    eapply IH; [|exact Hrun]. eapply hookInv_exec; eassumption.
Qed.

(** X1: along every run of the hook from its mount, the buffered value is
    the fold of all the writes so far; the observable state is the last
    value committed, or the initial one; whenever no timeout is pending
    the observable state equals the buffered value, so nothing written
    stays uncommitted without a timer; and there are never more commits
    than writes. *)
Theorem hook_state_follows_buffer
  (value : ValueT) (st : Store) (t0 : Z) (evs : list Event) (m : Machine) :
  run delay evs (mounted value st t0) = Some m ->
  stateBufferRef (hook m) = fst (foldWrites evs (value, st)) /\
  state (hook m) = List.last (commits m) value /\
  (commitTimeoutRef (hook m) = None -> state (hook m) = stateBufferRef (hook m)) /\
  (length (commits m) <= writes evs)%nat.
Proof.
  intros Hrun.
  destruct (hookInv_run value st t0 evs [] _ _ (hookInv_mounted value st t0) Hrun)
    as (Hbuf & Hlast & Hsync & _ & Hlen & _).
  cbn [app] in *. rewrite <- Hbuf. auto.
Qed.

(** X2: whenever the timer callback runs, at least [delay] has passed
    since the last write, and what it commits is the fold of all the
    writes issued so far, not of those issued when the timer was first
    armed. *)
Theorem timeout_commits_latest_buffer_not_early
  (value : ValueT) (st : Store) (t0 : Z) (evs : list Event) (t : Z) (m : Machine) :
  run delay (evs ++ [Timeout t]) (mounted value st t0) = Some m ->
  lastWrite t0 evs + Z.max delay 0 <= t /\
  (0 < writes evs)%nat /\
  state (hook m) = fst (foldWrites evs (value, st)) /\
  commitTimeoutRef (hook m) = None.
Proof.
  intros Hrun. rewrite run_app in Hrun.
  destruct (run delay evs (mounted value st t0)) as [m1|] eqn:E; [|discriminate].
  destruct (hookInv_run value st t0 evs [] _ _ (hookInv_mounted value st t0) E)
    as (Hbuf & _ & _ & Hdue & _ & _ & Hlt).
  cbn [app] in *. cbn [run] in Hrun. unfold exec in Hrun.
  destruct (clock m1 <=? t); [|discriminate].
  destruct (commitTimeoutRef (hook m1)) as [due|] eqn:Htimer; [|discriminate].
  destruct (Z.leb_spec due t) as [Hle|]; [|discriminate].
  injection Hrun as <-.
  rewrite (Hdue due eq_refl) in Hle. unfold setTimeout in Hle.
  specialize (Hlt due eq_refl).
  cbn [hook timeoutCallback state commitTimeoutRef]. rewrite <- Hbuf.
  repeat split; auto; lia.
Qed.

End HookRuns.

(* ===================================================================== *)
(** ** isEmpty and the shape of a value *)
(* ===================================================================== *)

Section IsEmptyShape.

Import Utils.

Lemma leaves_iterable (items : list JSValue) :
  leaves (JSIterable items) = flat_map leaves items.
Proof.
  cbn [leaves]. induction items as [|item items IH]; [reflexivity|].
  cbn [flat_map]. rewrite <- IH. reflexivity.
Qed.

Lemma leaves_object (props : list (string * JSValue)) :
  leaves (JSObject props) = flat_map (fun p => leaves (snd p)) props.
Proof.
  cbn [leaves]. induction props as [|[k v] props IH]; [reflexivity|].
  cbn [flat_map snd]. rewrite <- IH. reflexivity.
Qed.

Lemma forallb_flat_map {A B : Type} (f : B -> bool) (g : A -> list B) (l : list A) :
  forallb f (flat_map g l) = forallb (fun x => forallb f (g x)) l.
Proof.
  induction l as [|x l IH]; [reflexivity|].
  cbn [flat_map forallb]. rewrite forallb_app, IH. reflexivity.
Qed.

Lemma forallb_ext_Forall {A : Type} (f g : A -> bool) (l : list A) :
  Forall (fun x => f x = g x) l -> forallb f l = forallb g l.
Proof.
  induction 1 as [|x l Hx _ IH]; [reflexivity|].
  cbn [forallb]. rewrite Hx, IH. reflexivity.
Qed.

Lemma isEmpty_by_leaves (v : JSValue) (flag : bool) :
  isEmpty v flag = forallb (fun leaf => isEmpty leaf flag) (leaves v) /\
  isEmpty v false = forallb absent (leaves v).
Proof.
  induction v using JSValue_members_ind;
    try (split; [cbn; rewrite ?andb_true_r; reflexivity | reflexivity]).
  - rewrite !isEmpty_iterable, leaves_iterable, !forallb_flat_map.
    split; apply forallb_ext_Forall.
    + eapply Forall_impl; [exact H|]. intros x [Hx _]. exact Hx.
    + eapply Forall_impl; [exact H|]. intros x [_ Hx]. exact Hx.
  - rewrite !isEmpty_object, leaves_object, !forallb_flat_map.
    split; apply forallb_ext_Forall.
    + eapply Forall_impl; [exact H|]. intros x [Hx _]. exact Hx.
    + eapply Forall_impl; [exact H|]. intros x [_ Hx]. exact Hx.
Qed.

(** X3: whether a value is empty depends only on its leaves: it is empty
    exactly when every leaf is, whatever the nesting of arrays and objects
    around them and whatever the keys.  Under the default flag this means
    that every leaf is [null] or [undefined]. *)
Theorem isEmpty_depends_on_leaves_only (v : JSValue) (flag : bool) :
  isEmpty v flag = forallb (fun leaf => isEmpty leaf flag) (leaves v) /\
  isEmpty v false = forallb absent (leaves v).
Proof. apply isEmpty_by_leaves. Qed.

(** X4: setting [ignoreFalsyValues] can only turn more values empty: what
    is empty under the default flag is empty with the flag set, and
    numbers, booleans and dates anywhere inside a value keep it non-empty
    under both. *)
Theorem isEmpty_flag_only_adds (v : JSValue) :
  (isEmpty v false = true -> isEmpty v true = true) /\
  (forall leaf : JSValue,
      In leaf (leaves v) ->
      (exists n, leaf = JSNumber n) \/ (exists b, leaf = JSBoolean b) \/
      leaf = JSDate ->
      forall flag : bool, isEmpty v flag = false).
Proof.
  split.
  - destruct (isEmpty_by_leaves v true) as [Ht Hf].
    rewrite Ht, Hf, !forallb_forall. intros H leaf Hin.
    specialize (H leaf Hin). destruct leaf; try discriminate; reflexivity.
  - intros leaf Hin Hkind flag.
    destruct (isEmpty_by_leaves v flag) as [Hfl _].
    apply not_true_is_false. rewrite Hfl, forallb_forall. intros Hall.
    specialize (Hall leaf Hin).
    destruct Hkind as [[n ->]|[[b ->]| ->]]; discriminate.
Qed.

End IsEmptyShape.

(* ===================================================================== *)
(** ** The heap of a form stays well formed *)
(* ===================================================================== *)

Section WellFormed.

Context {Env : Type}.
Variable platformIsWeb : bool.

Lemma validOnly_sameShape (hp hp' : Heap Env) : validOnly hp hp' -> sameShape hp hp'.
Proof. intros (Ho & Hl & _). split; assumption. Qed.

Lemma assign_valid_sameShape (r : ref) (b : bool) (hp : Heap Env) :
  sameShape hp (assign_valid r b hp).
Proof. split; [reflexivity | apply length_alter]. Qed.

Lemma assign_yOffset_sameShape (r : ref) (y : Z) (hp : Heap Env) :
  sameShape hp (assign_yOffset r y hp).
Proof. split; [reflexivity | apply length_alter]. Qed.

Lemma sameShape_refl (hp : Heap Env) : sameShape hp hp.
Proof. split; reflexivity. Qed.

Lemma wfHeap_sameShape (hp hp' : Heap Env) :
  sameShape hp hp' -> wfHeap hp -> wfHeap hp'.
Proof.
  intros [Ho Hl] Hwf fs o Hfs. rewrite Ho in Hfs.
  destruct (Hwf fs o Hfs) as [Hnd Hr]. split; [exact Hnd|].
  intros k r Hin. rewrite Hl. eauto.
Qed.

Lemma keys_prop_replace (name : string) (r : ref) (o : ValidatedFormFields) :
  keys (prop_replace name r o) = keys o.
Proof.
  induction o as [|[k0 r0] o IH]; cbn [prop_replace keys map fst]; [reflexivity|].
  destruct (String.eqb k0 name); cbn [map fst]; [reflexivity|].
  unfold keys in IH. rewrite IH. reflexivity.
Qed.

Lemma In_prop_replace (name : string) (r : ref) (o : ValidatedFormFields)
  (k : string) (r' : ref) :
  In (k, r') (prop_replace name r o) -> (k = name /\ r' = r) \/ In (k, r') o.
Proof.
  induction o as [|[k0 r0] o IH]; cbn [prop_replace In]; [intros []|].
  destruct (String.eqb_spec k0 name) as [->|Hne]; cbn [In].
  - intros [[= <- <-]|H]; auto.
  - intros [H|H]; [auto|]. destruct (IH H); auto.
Qed.

Lemma In_prop_insert (name : string) (r : ref) (o : ValidatedFormFields)
  (k : string) (r' : ref) :
  In (k, r') (prop_insert name r o) <-> (k = name /\ r' = r) \/ In (k, r') o.
Proof.
  induction o as [|[k0 r0] o IH]; cbn [prop_insert In].
  - split; [intros [[= <- <-]|[]]; auto | intros [[-> ->]|[]]; auto].
  - destruct (listedBefore name k0); cbn [In].
    + split; [intros [[= <- <-]|H]; auto | intros [[-> ->]|H]; auto].
    + rewrite IH. split.
      * intros [H|[H|H]]; auto.
      * intros [H|[H|H]]; auto.
Qed.

Lemma In_keys_prop_insert (name : string) (r : ref) (o : ValidatedFormFields)
  (k : string) :
  In k (keys (prop_insert name r o)) <-> k = name \/ In k (keys o).
Proof.
  induction o as [|[k0 r0] o IH]; cbn [prop_insert keys map fst In].
  - split; [intros [<-|[]]; auto | intros [->|[]]; auto].
  - destruct (listedBefore name k0); cbn [map fst In].
    + split; [intros [<-|H]; auto | intros [->|H]; auto].
    + unfold keys in IH. rewrite IH. split.
      * intros [H|[H|H]]; auto.
      * intros [H|[H|H]]; auto.
Qed.

Lemma prop_get_None_keys (name : string) (o : ValidatedFormFields) :
  prop_get name o = None <-> ~ In name (keys o).
Proof.
  induction o as [|[k0 r0] o IH]; cbn [prop_get keys map fst In].
  - split; [intros _ [] | reflexivity].
  - destruct (String.eqb_spec k0 name) as [->|Hne].
    + split; [discriminate | intros H; exfalso; apply H; left; reflexivity].
    + unfold keys in IH. rewrite IH. split.
      * intros H [Heq|Hin]; [exact (Hne Heq) | exact (H Hin)].
      * intros H Hin. apply H. right. exact Hin.
Qed.

Lemma In_keys_prop_set (name : string) (r : ref) (o : ValidatedFormFields)
  (k : string) :
  In k (keys (prop_set name r o)) -> k = name \/ In k (keys o).
Proof.
  unfold prop_set. destruct (prop_get name o).
  - rewrite keys_prop_replace. auto.
  - apply In_keys_prop_insert.
Qed.

Lemma In_prop_set (name : string) (r : ref) (o : ValidatedFormFields)
  (k : string) (r' : ref) :
  In (k, r') (prop_set name r o) -> (k = name /\ r' = r) \/ In (k, r') o.
Proof.
  unfold prop_set. destruct (prop_get name o).
  - apply In_prop_replace.
  - apply In_prop_insert.
Qed.

Lemma NoDup_keys_prop_insert (name : string) (r : ref) (o : ValidatedFormFields) :
  ~ In name (keys o) -> List.NoDup (keys o) ->
  List.NoDup (keys (prop_insert name r o)).
Proof.
  induction o as [|[k0 r0] o IH]; cbn [prop_insert keys map fst];
    intros Hnew Hnd.
  - constructor; [intros [] | constructor].
  - destruct (listedBefore name k0); cbn [map fst].
    + constructor; [exact Hnew | exact Hnd].
    + inversion Hnd as [|? ? Hnotin Hrest]; subst.
      constructor.
      * intros Hin. apply In_keys_prop_insert in Hin.
        destruct Hin as [->|H]; [apply Hnew; left; reflexivity | exact (Hnotin H)].
      * apply IH; [|exact Hrest]. intros Hin. apply Hnew. right. exact Hin.
Qed.

Lemma NoDup_keys_prop_set (name : string) (r : ref) (o : ValidatedFormFields) :
  List.NoDup (keys o) -> List.NoDup (keys (prop_set name r o)).
Proof.
  intros Hnd. unfold prop_set. destruct (prop_get name o) eqn:E.
  - rewrite keys_prop_replace. exact Hnd.
  - apply NoDup_keys_prop_insert; [|exact Hnd].
    apply prop_get_None_keys. exact E.
Qed.

Lemma In_prop_delete (name : string) (o : ValidatedFormFields)
  (k : string) (r : ref) :
  In (k, r) (prop_delete name o) -> In (k, r) o /\ k <> name.
Proof.
  induction o as [|[k0 r0] o IH]; cbn [prop_delete In]; [intros []|].
  destruct (String.eqb_spec k0 name) as [->|Hne]; cbn [In].
  - intros H. destruct (IH H). auto.
  - intros [[= <- <-]|H]; [auto|]. destruct (IH H). auto.
Qed.

Lemma In_keys_prop_delete (name : string) (o : ValidatedFormFields) (k : string) :
  In k (keys (prop_delete name o)) -> In k (keys o) /\ k <> name.
Proof.
  induction o as [|[k0 r0] o IH]; cbn [prop_delete keys map fst In]; [intros []|].
  destruct (String.eqb_spec k0 name) as [->|Hne]; cbn [map fst In].
  - intros H. destruct (IH H). auto.
  - intros [<-|H]; [auto|]. destruct (IH H). auto.
Qed.

Lemma NoDup_keys_prop_delete (name : string) (o : ValidatedFormFields) :
  List.NoDup (keys o) -> List.NoDup (keys (prop_delete name o)).
Proof.
  induction o as [|[k0 r0] o IH]; cbn [prop_delete keys map fst]; intros Hnd;
    [constructor|].
  inversion Hnd as [|? ? Hnotin Hrest]; subst.
  destruct (String.eqb_spec k0 name) as [->|Hne]; cbn [map fst]; [auto|].
  constructor; [|auto].
  intros Hin. apply In_keys_prop_delete in Hin. destruct Hin. auto.
Qed.

Lemma wfObject_nil (hp : Heap Env) : wfObject hp [].
Proof. split; [constructor | intros k r []]. Qed.

Lemma wfObject_fieldsAt (hp : Heap Env) (fs : ref) :
  wfHeap hp -> wfObject hp (fieldsAt hp fs).
Proof.
  intros Hwf. unfold fieldsAt.
  destruct (fieldsObjects hp !! fs) as [o|] eqn:E; [eauto | apply wfObject_nil].
Qed.

(** A world whose heap and hook are those of a well-formed one. *)
Lemma wfWorld_ext (w w' : World Env) :
  heap w' = heap w -> hook w' = hook w -> wfWorld w -> wfWorld w'.
Proof.
  unfold wfWorld, validatorState, buffered. intros -> ->. auto.
Qed.

(** One call of the buffered setter keeps the world well formed when its
    updater does. *)
Lemma wfWorld_setValidatorState
  (f : ValidatorState -> Heap Env -> ValidatorState * Heap Env) (w : World Env) :
  wfWorld w ->
  (wfHeap (snd (f (buffered w) (heap w))) /\
   (fields (fst (f (buffered w) (heap w)))
    < length (fieldsObjects (snd (f (buffered w) (heap w)))))%nat /\
   (length (fieldsObjects (heap w))
    <= length (fieldsObjects (snd (f (buffered w) (heap w)))))%nat /\
   fieldsObjects (snd (f (buffered w) (heap w))) !! O = Some []) ->
  wfWorld (setValidatorState (BufferedState.Updater f) w).
Proof.
  intros (_ & Hc & _ & _) (Hwf & Hb & Hlen & H0).
  rewrite setValidatorState_updater.
  unfold wfWorld, validatorState, buffered in *.
  cbn [heap hook BufferedState.state BufferedState.stateBufferRef].
  split; [exact Hwf|]. split; [lia|]. split; [exact Hb | exact H0].
Qed.

Lemma wfWorld_sameShape_updater
  (f : ValidatorState -> Heap Env -> ValidatorState * Heap Env) (w : World Env) :
  wfWorld w ->
  sameShape (heap w) (snd (f (buffered w) (heap w))) ->
  fields (fst (f (buffered w) (heap w))) = fields (buffered w) ->
  wfWorld (setValidatorState (BufferedState.Updater f) w).
Proof.
  intros Hw Hs Hf. pose proof Hw as (Hwf & Hc & Hb & H0).
  apply wfWorld_setValidatorState; [exact Hw|].
  destruct Hs as [Ho Hl]. rewrite Hf, Ho.
  split; [|split; [exact Hb | split; [lia | exact H0]]].
  apply (wfHeap_sameShape (heap w)); [split; assumption | exact Hwf].
Qed.

Lemma resetFold_sameShape (fs : ref) (names : list string) (hp : Heap Env) :
  sameShape hp (fold_left (resetStep fs) names hp).
Proof. apply validOnly_sameShape. apply (resetFold_spec fs names hp). Qed.

Lemma updateFieldOffsetY_wf (name : string) (y : Z) (w : World Env) :
  wfWorld w -> wfWorld (updateFieldOffsetY name y w).
Proof.
  intros Hw. unfold updateFieldOffsetY. apply wfWorld_sameShape_updater; [exact Hw| |].
  - rewrite spread_id. destruct (getField _ _ name) as [[r f]|]; cbn [snd];
      [apply assign_yOffset_sameShape | apply sameShape_refl].
  - rewrite spread_id. destruct (getField _ _ name) as [[r f]|]; reflexivity.
Qed.

Lemma addField_wf (name : string) (isValid : bool)
  (callback : Env -> bool) (measure : Env -> Z) (w : World Env) :
  wfWorld w -> wfWorld (addField name isValid callback measure w).
Proof.
  intros Hw. unfold addField.
  destruct (getField _ _ name); [eapply wfWorld_ext; [| |exact Hw]; reflexivity|].
  destruct (inheritedName name);
    [eapply wfWorld_ext; [| |exact Hw]; reflexivity|].
  pose proof Hw as (Hwf & Hc & Hb & H0).
  apply wfWorld_setValidatorState; [exact Hw|]. cbn [fst snd fields fieldsObjects].
  rewrite length_app. cbn [length].
  split; [|split; [lia | split; [lia|]]].
  - intros fs o Hfs. cbn [fieldsObjects] in Hfs.
    destruct (decide (fs < length (fieldsObjects (heap w)))%nat) as [Hlt|Hge].
    + rewrite lookup_app_l in Hfs by exact Hlt.
      destruct (Hwf fs o Hfs) as [Hnd Hr]. split; [exact Hnd|].
      intros k r Hin. cbn [fieldStates]. rewrite length_app. cbn [length].
      specialize (Hr k r Hin). lia.
    + rewrite lookup_app_r in Hfs by lia.
      destruct (fs - length (fieldsObjects (heap w)))%nat as [|n] eqn:E;
        [|destruct n; discriminate].
      injection Hfs as <-.
      destruct (wfObject_fieldsAt (heap w) (fields (buffered w)) Hwf) as [Hnd Hr].
      split; [apply NoDup_keys_prop_set; exact Hnd|].
      intros k r Hin. cbn [fieldStates]. rewrite length_app. cbn [length].
      destruct (In_prop_set _ _ _ _ _ Hin) as [[_ ->]|Hold]; [lia|].
      specialize (Hr k r Hold). lia.
  - rewrite lookup_app_l; [exact H0|]. apply lookup_lt_Some in H0. exact H0.
Qed.

Lemma removeField_wf (name : string) (w : World Env) :
  wfWorld w -> wfWorld (removeField name w).
Proof.
  intros Hw. pose proof Hw as (Hwf & Hc & Hb & H0). unfold removeField.
  apply wfWorld_setValidatorState; [exact Hw|].
  cbn [fst snd fieldsObjects]. rewrite spread_id, length_alter.
  split; [|split; [exact Hb | split; [lia|]]].
  - intros fs o Hfs. cbn [fieldsObjects] in Hfs.
    destruct (decide (fields (buffered w) = fs)) as [<-|Hne].
    + rewrite list_lookup_alter_eq in Hfs.
      destruct (fieldsObjects (heap w) !! fields (buffered w)) as [o0|] eqn:E;
        [|discriminate].
      injection Hfs as <-. destruct (Hwf _ _ E) as [Hnd Hr].
      split; [apply NoDup_keys_prop_delete; exact Hnd|].
      intros k r Hin. apply In_prop_delete in Hin. destruct Hin as [Hin _].
      exact (Hr k r Hin).
    + rewrite list_lookup_alter_ne in Hfs by exact Hne. exact (Hwf fs o Hfs).
  - destruct (decide (fields (buffered w) = O)) as [->|Hne].
    + rewrite list_lookup_alter_eq, H0. reflexivity.
    + rewrite list_lookup_alter_ne by exact Hne. exact H0.
Qed.

Lemma validateField_wf (env : Env) (name : string) (w : World Env) :
  wfWorld w -> wfWorld (validateField env name w).
Proof.
  intros Hw. unfold validateField.
  destruct (getField _ _ name) as [[r f]|];
    [|destruct (inheritedName name);
      (eapply wfWorld_ext; [| |exact Hw]; reflexivity)].
  destruct (Bool.eqb _ _); [exact Hw|].
  apply wfWorld_sameShape_updater; [exact Hw| |].
  - rewrite spread_id. destruct (getField _ _ name) as [[r' f']|]; cbn [snd];
      [apply assign_valid_sameShape | apply sameShape_refl].
  - rewrite spread_id. destruct (getField _ _ name) as [[r' f']|]; reflexivity.
Qed.

Lemma validateForm_wf (env : Env) (w : World Env) :
  wfWorld w -> wfWorld (snd (validateForm env w)).
Proof.
  intros Hw. pose proof Hw as (Hwf & Hc & Hb & H0).
  destruct (ready (validatorState w)) eqn:Hready.
  - destruct (validateForm_ready env w Hready) as (hp' & Hvo & ->). cbn [snd].
    apply validOnly_sameShape in Hvo. destruct Hvo as [Ho Hl].
    rewrite setValidatorState_updater. unfold wfWorld.
    cbn [heap validatorState buffered hook BufferedState.state
         BufferedState.stateBufferRef fst snd].
    rewrite spread_id, Ho. unfold validatorState in *.
    split; [|split; [exact Hc | split; [exact Hc | exact H0]]].
    apply (wfHeap_sameShape (heap w)); [split; assumption | exact Hwf].
  - unfold validateForm. rewrite Hready. exact Hw.
Qed.

Lemma resetValidations_wf (w : World Env) :
  wfWorld w -> wfWorld (resetValidations w).
Proof.
  intros Hw. unfold resetValidations.
  apply wfWorld_sameShape_updater; [exact Hw| |].
  - cbn [snd]. rewrite spread_id.
    apply (resetFold_sameShape (fields (buffered w))).
  - cbn [fst]. rewrite spread_id. reflexivity.
Qed.

Lemma perform_wf (a : Action Env) (w w' : World Env) :
  perform platformIsWeb a w = Some w' -> wfWorld w -> wfWorld w'.
Proof.
  destruct a; cbn [perform]; intros H Hw.
  - injection H as <-. unfold mountEffect.
    apply wfWorld_sameShape_updater; [exact Hw | apply sameShape_refl | reflexivity].
  - injection H as <-. apply addField_wf. exact Hw.
  - injection H as <-. apply removeField_wf. exact Hw.
  - injection H as <-. apply updateFieldOffsetY_wf. exact Hw.
  - injection H as <-. apply validateField_wf. exact Hw.
  - injection H as <-. apply validateForm_wf. exact Hw.
  - injection H as <-. apply resetValidations_wf. exact Hw.
  - injection H as <-. eapply wfWorld_ext; [| |exact Hw]; reflexivity.
  - unfold measureResolved in H.
    destruct (pending w !! i) as [[name measure]|]; [|discriminate].
    injection H as <-. apply updateFieldOffsetY_wf.
    eapply wfWorld_ext; [| |exact Hw]; reflexivity.
  - unfold timerFires in H.
    destruct (BufferedState.commitTimeoutRef (hook w)); [|discriminate].
    destruct (_ <=? _); [|discriminate]. injection H as <-.
    destruct Hw as (Hwf & Hc & Hb & H0). unfold wfWorld.
    cbn [heap validatorState buffered hook BufferedState.timeoutCallback
         BufferedState.state BufferedState.stateBufferRef].
    unfold buffered in Hb.
    split; [exact Hwf|]. split; [exact Hb|]. split; [exact Hb | exact H0].
  - unfold tick in H. destruct (_ <=? _); [|discriminate]. injection H as <-.
    eapply wfWorld_ext; [| |exact Hw]; reflexivity.
Qed.

Lemma initialWorld_wf : wfWorld (@initialWorld Env).
Proof.
  unfold wfWorld, wfHeap, initialWorld. cbn.
  split; [|split; [lia | split; [lia | reflexivity]]].
  intros [|fs] o H; [|destruct fs; discriminate].
  injection H as <-. apply wfObject_nil.
Qed.

Lemma performAll_wf (acts : list (Action Env)) :
  forall w w' : World Env,
    performAll platformIsWeb acts w = Some w' -> wfWorld w -> wfWorld w'.
Proof.
  induction acts as [|a acts IH]; intros w w' H Hw; cbn [performAll] in H.
  - injection H as <-. exact Hw.
  - destruct (perform platformIsWeb a w) as [w1|] eqn:E; [|discriminate].
    eapply IH; [exact H|]. eapply perform_wf; eassumption.
Qed.

(** In a well-formed heap a key of a fields object always has a record. *)
Lemma wf_key_has_record (hp : Heap Env) (fs : ref) (name : string) :
  wfHeap hp ->
  In name (keys (fieldsAt hp fs)) ->
  exists (r : ref) (f : ValidatedFieldState Env), getField hp fs name = Some (r, f).
Proof.
  intros Hwf Hin. destruct (wfObject_fieldsAt hp fs Hwf) as [_ Hr].
  unfold getField.
  assert (Hget : exists r, prop_get name (fieldsAt hp fs) = Some r /\
                           In (name, r) (fieldsAt hp fs)).
  { clear Hr. induction (fieldsAt hp fs) as [|[k r] o IH]; [destruct Hin|].
    cbn [prop_get]. destruct (String.eqb_spec k name) as [->|Hne].
    - exists r. split; [reflexivity | left; reflexivity].
    - destruct Hin as [Hk|Hin]; [cbn in Hk; contradiction|].
      destruct (IH Hin) as (r' & Hg & Hi). exists r'. split; [exact Hg | right; exact Hi]. }
  destruct Hget as (r & -> & Hi). specialize (Hr name r Hi).
  apply lookup_lt_is_Some in Hr. destruct Hr as [f ->]. eauto.
Qed.

(** X5: every world a form can reach is well formed: both states point
    to existing fields objects, no fields object has a key twice, every
    key has a record, and the [fields: {}] object of
    [DEFAULT_VALIDATOR_STATE], which every form instance starts from, is
    still empty. *)
Theorem reachable_worlds_are_well_formed
  (acts : list (Action Env)) (w : World Env) :
  performAll platformIsWeb acts initialWorld = Some w ->
  wfWorld w /\
  List.NoDup (keys (fieldsAt (heap w) (fields (validatorState w)))) /\
  List.NoDup (keys (fieldsAt (heap w) (fields (buffered w)))) /\
  (forall name : string,
      In name (keys (fieldsAt (heap w) (fields (validatorState w)))) ->
      exists (r : ref) (f : ValidatedFieldState Env),
        getField (heap w) (fields (validatorState w)) name = Some (r, f)) /\
  (forall name : string,
      In name (keys (fieldsAt (heap w) (fields (buffered w)))) ->
      exists (r : ref) (f : ValidatedFieldState Env),
        getField (heap w) (fields (buffered w)) name = Some (r, f)) /\
  fieldsAt (heap w) O = [].
Proof.
  intros H. pose proof (performAll_wf acts _ _ H initialWorld_wf) as Hw.
  pose proof Hw as (Hwf & _ & _ & H0).
  split; [exact Hw|].
  split; [apply (wfObject_fieldsAt _ _ Hwf)|].
  split; [apply (wfObject_fieldsAt _ _ Hwf)|].
  split; [intros name; apply wf_key_has_record; exact Hwf|].
  split; [intros name; apply wf_key_has_record; exact Hwf|].
  unfold fieldsAt. rewrite H0. reflexivity.
Qed.

End WellFormed.

(* ===================================================================== *)
(** ** What the registry operations do to the records *)
(* ===================================================================== *)

Section RegistryOps.

Context {Env : Type}.

Lemma getField_record (hp : Heap Env) (fs : ref) (name : string)
  (r : ref) (f : ValidatedFieldState Env) :
  getField hp fs name = Some (r, f) ->
  prop_get name (fieldsAt hp fs) = Some r /\ fieldStates hp !! r = Some f.
Proof.
  unfold getField. destruct (prop_get name (fieldsAt hp fs)) as [r0|]; [|discriminate].
  destruct (fieldStates hp !! r0) as [f0|] eqn:E; [|discriminate].
  intros [= <- <-]. auto.
Qed.

Lemma getField_same_record (hp : Heap Env) (fs fs' : ref) (n n' : string)
  (r : ref) (f f' : ValidatedFieldState Env) :
  getField hp fs n = Some (r, f) -> getField hp fs' n' = Some (r, f') -> f = f'.
Proof.
  intros H H'. apply getField_record in H, H'.
  destruct H as [_ H], H' as [_ H']. congruence.
Qed.

(** *** validateForm writes the outcomes back *)

Lemma validateFormStep_heap (env : Env) (fs : ref) (acc : bool)
  (hp : Heap Env) (name : string) :
  snd (validateFormStep env fs (acc, hp) name) =
  match getField hp fs name with
  | Some (r, f) =>
      if Bool.eqb (validateCallback f env) (valid f) then hp
      else assign_valid r (validateCallback f env) hp
  | None => hp
  end.
Proof.
  unfold validateFormStep.
  destruct (getField hp fs name) as [[r f]|]; cbn; [|reflexivity].
  destruct (Bool.eqb _ _); reflexivity.
Qed.

Lemma validateFold_writeback (env : Env) (fs : ref) (names : list string) :
  forall (acc : bool) (hp : Heap Env)
         (name : string) (r : ref) (f : ValidatedFieldState Env),
    getField (snd (fold_left (validateFormStep env fs) names (acc, hp))) fs name
    = Some (r, f) ->
    In name names \/
    (exists f0, getField hp fs name = Some (r, f0) /\
                valid f0 = validateCallback f0 env) ->
    valid f = validateCallback f env.
Proof.
  induction names as [|k rest IH]; intros acc hp name r f Hg Hcase;
    cbn [fold_left] in Hg.
  - destruct Hcase as [[]|(f0 & Hg0 & Hv)]. cbn [snd] in Hg. congruence.
  - pose proof (validateFormStep_heap env fs acc hp k) as Hstep.
    destruct (validateFormStep_spec env fs acc hp k) as [_ Hvo1].
    destruct (validateFormStep env fs (acc, hp) k) as [acc1 hp1].
    cbn [snd] in Hstep, Hvo1.
    destruct (validateForm_fold env fs hp1 rest acc1 hp1 (validOnly_refl _))
      as [_ Hvo2].
    apply (IH acc1 hp1 name r f Hg).
    assert (Hback : exists f0, getField hp fs name = Some (r, f0)).
    { pose proof (getField_validOnly hp _ fs name
                    (validOnly_trans _ _ _ Hvo1 Hvo2)) as H.
      destruct (getField hp fs name) as [[r0 f0]|].
      - destruct H as (f' & H & _). rewrite H in Hg. injection Hg as -> _. eauto.
      - congruence. }
    destruct Hback as (f0 & Hg0).
    destruct Hcase as [[->|Hin]|(f1 & Hg1 & Hv1)].
    + right. rewrite Hstep, Hg0.
      destruct (Bool.eqb (validateCallback f0 env) (valid f0)) eqn:E.
      * exists f0. apply eqb_prop in E. auto.
      * rewrite getField_assign_valid, Hg0.
        destruct (decide (r = r)); [|contradiction].
        eexists. split; reflexivity.
    + left. exact Hin.
    + right. rewrite Hstep.
      destruct (getField hp fs k) as [[rk fk]|] eqn:Gk; [|eauto].
      destruct (Bool.eqb _ _); [eauto|].
      rewrite getField_assign_valid, Hg1.
      destruct (decide (rk = r)) as [->|Hne]; [|eauto].
      rewrite (getField_same_record _ _ _ _ _ _ _ _ Gk Hg1).
      eexists. split; reflexivity.
Qed.

(** Once every flag agrees with its predicate, the walk assigns nothing. *)
Lemma validateFold_settled (env : Env) (fs : ref) (names : list string) :
  forall (acc : bool) (hp : Heap Env),
    (forall (name : string) (r : ref) (f : ValidatedFieldState Env),
        In name names -> getField hp fs name = Some (r, f) ->
        valid f = validateCallback f env) ->
    snd (fold_left (validateFormStep env fs) names (acc, hp)) = hp.
Proof.
  induction names as [|k rest IH]; intros acc hp Hall; cbn [fold_left];
    [reflexivity|].
  pose proof (validateFormStep_heap env fs acc hp k) as Hstep.
  destruct (validateFormStep env fs (acc, hp) k) as [acc1 hp1].
  cbn [snd] in Hstep.
  assert (Hsame : hp1 = hp).
  { rewrite Hstep. destruct (getField hp fs k) as [[r f]|] eqn:G; [|reflexivity].
    rewrite <- (Hall k r f (or_introl eq_refl) G), eqb_reflx. reflexivity. }
  clear Hstep. subst hp1. apply IH. intros name r f Hin. apply Hall. right.
  exact Hin.
Qed.

(** After the walk over all keys of a fields object every flag agrees with
    its predicate. *)
Lemma validateFold_flags (env : Env) (fs : ref) (hp : Heap Env)
  (name : string) (r : ref) (f : ValidatedFieldState Env) :
  getField (snd (fold_left (validateFormStep env fs) (keys (fieldsAt hp fs))
                           (true, hp))) fs name = Some (r, f) ->
  valid f = validateCallback f env.
Proof.
  intros Hg.
  apply (validateFold_writeback env _ _ _ _ name r f Hg). left.
  apply getField_In in Hg.
  destruct (validateForm_fold env fs hp (keys (fieldsAt hp fs)) true hp
              (validOnly_refl _)) as [_ Hvo].
  rewrite (fieldsAt_validOnly _ _ _ Hvo) in Hg. exact Hg.
Qed.

(** [validateForm] on a ready form, with the heap it leaves. *)
Lemma validateForm_ready_heap (env : Env) (w : World Env) :
  ready (validatorState w) = true ->
  fst (validateForm env w)
  = fst (fold_left (validateFormStep env (fields (validatorState w)))
                   (registeredNames w) (true, heap w)) /\
  heap (snd (validateForm env w))
  = snd (fold_left (validateFormStep env (fields (validatorState w)))
                   (registeredNames w) (true, heap w)) /\
  validatorState (snd (validateForm env w)) = validatorState w /\
  buffered (snd (validateForm env w)) = validatorState w.
Proof.
  intros Hready. unfold validateForm, registeredNames. rewrite Hready.
  cbn [Bool.eqb spread fields].
  destruct (fold_left _ _ _) as [b hp']. cbn [fst snd].
  rewrite setValidatorState_updater.
  unfold validatorState, buffered.
  cbn [heap hook BufferedState.state BufferedState.stateBufferRef fst snd].
  rewrite spread_id. auto.
Qed.

(** X6: after [validateForm] on a ready form, the stored [valid] flag of
    every registered field is what its predicate returned during the call;
    the flags are assigned in place, so they are there before any
    commit. *)
Theorem validateForm_writes_outcomes_back (env : Env) (w : World Env) :
  ready (validatorState w) = true ->
  forall (name : string) (r : ref) (f : ValidatedFieldState Env),
    getField (heap (snd (validateForm env w))) (fields (validatorState w)) name
    = Some (r, f) ->
    valid f = validateCallback f env.
Proof.
  intros Hready name r f Hg.
  destruct (validateForm_ready_heap env w Hready) as (_ & Hheap & _).
  rewrite Hheap in Hg. exact (validateFold_flags env _ _ name r f Hg).
Qed.

Lemma forallb_ext_In {A : Type} (f g : A -> bool) (l : list A) :
  (forall x, In x l -> f x = g x) -> forallb f l = forallb g l.
Proof.
  induction l as [|x l IH]; intros H; [reflexivity|].
  cbn [forallb]. rewrite (H x (or_introl eq_refl)), IH; [reflexivity|].
  intros y Hy. apply H. right. exact Hy.
Qed.

Lemma validateForm_unready (env : Env) (w : World Env) :
  ready (validatorState w) = false -> validateForm env w = (false, w).
Proof. intros Hready. unfold validateForm. rewrite Hready. reflexivity. Qed.

(** The flag [validateForm] returns, for two worlds with the same
    committed state whose heaps differ in [valid] flags only. *)
Lemma validateForm_result_validOnly (env : Env) (w1 w2 : World Env) :
  validatorState w2 = validatorState w1 ->
  validOnly (heap w1) (heap w2) ->
  fst (validateForm env w2) = fst (validateForm env w1).
Proof.
  intros Hs Hvo. destruct (ready (validatorState w1)) eqn:Hready.
  - destruct (validateForm_ready env w1 Hready) as (hp1 & _ & ->).
    assert (Hready2 : ready (validatorState w2) = true) by congruence.
    destruct (validateForm_ready env w2 Hready2) as (hp2 & _ & ->).
    cbn [fst]. unfold registeredNames.
    rewrite Hs, (fieldsAt_validOnly _ _ _ Hvo).
    apply forallb_ext_In. intros name _. apply passes_validOnly. exact Hvo.
  - unfold validateForm. rewrite Hs, Hready. reflexivity.
Qed.

(** X7: what [validateForm] returns does not depend on the stored flags:
    [resetValidations] or an earlier [validateForm] before it change
    nothing in its result; and a second [validateForm] in a row leaves the
    heap as the first one left it. *)
Theorem validateForm_ignores_stored_flags (env : Env) (w : World Env) :
  fst (validateForm env (resetValidations w)) = fst (validateForm env w) /\
  fst (validateForm env (snd (validateForm env w))) = fst (validateForm env w) /\
  heap (snd (validateForm env (snd (validateForm env w))))
  = heap (snd (validateForm env w)).
Proof.
  split; [|split].
  - apply validateForm_result_validOnly.
    + unfold resetValidations. rewrite setValidatorState_updater. reflexivity.
    + unfold resetValidations. rewrite setValidatorState_updater.
      cbn [heap snd]. rewrite spread_id.
      apply (resetFold_spec (fields (buffered w))).
  - destruct (ready (validatorState w)) eqn:Hready.
    + destruct (validateForm_ready_heap env w Hready) as (_ & Hheap & Hs & _).
      apply validateForm_result_validOnly; [exact Hs|].
      rewrite Hheap.
      apply (validateForm_fold env _ (heap w) _ true (heap w) (validOnly_refl _)).
    + rewrite (validateForm_unready env w Hready). cbn [snd].
      rewrite (validateForm_unready env w Hready). reflexivity.
  - destruct (ready (validatorState w)) eqn:Hready.
    + pose proof (validateForm_ready_heap env w Hready) as (_ & Hheap & Hs & _).
      assert (Hready1 : ready (validatorState (snd (validateForm env w))) = true)
        by congruence.
      destruct (validateForm_ready_heap env _ Hready1) as (_ & Hheap1 & _).
      rewrite Hheap1, Hs. apply validateFold_settled.
      intros name r f _ Hg. rewrite Hheap in Hg.
      exact (validateFold_flags env _ _ name r f Hg).
    + rewrite (validateForm_unready env w Hready). cbn [snd].
      rewrite (validateForm_unready env w Hready). reflexivity.
Qed.

End RegistryOps.

(* ===================================================================== *)
(** ** Deleting, moving and adding a field *)
(* ===================================================================== *)

Section RegistryFrames.

Context {Env : Type}.

Lemma prop_get_delete_eq (name : string) (o : ValidatedFormFields) :
  prop_get name (prop_delete name o) = None.
Proof.
  induction o as [|[k r] o IH]; cbn [prop_delete prop_get]; [reflexivity|].
  destruct (String.eqb k name) eqn:E; [exact IH|].
  cbn [prop_get]. rewrite E. exact IH.
Qed.

Lemma prop_get_delete_ne (name n : string) (o : ValidatedFormFields) :
  n <> name -> prop_get n (prop_delete name o) = prop_get n o.
Proof.
  intros Hne. induction o as [|[k r] o IH]; cbn [prop_delete prop_get];
    [reflexivity|].
  destruct (String.eqb_spec k name) as [->|Hk].
  - destruct (String.eqb_spec name n) as [->|_]; [contradiction | exact IH].
  - cbn [prop_get]. rewrite IH. reflexivity.
Qed.

Lemma prop_get_set_ne (name n : string) (r : ref) (o : ValidatedFormFields) :
  n <> name -> prop_get n (prop_set name r o) = prop_get n o.
Proof.
  intros Hne. unfold prop_set. destruct (prop_get name o) as [r1|].
  - induction o as [|[k r0] o IH]; cbn [prop_replace prop_get]; [reflexivity|].
    destruct (String.eqb_spec k name) as [->|Hk]; cbn [prop_get].
    + destruct (String.eqb_spec name n) as [->|_]; [contradiction | reflexivity].
    + rewrite IH. reflexivity.
  - induction o as [|[k r0] o IH]; cbn [prop_insert prop_get].
    + destruct (String.eqb_spec name n) as [->|_]; [contradiction | reflexivity].
    + destruct (listedBefore name k); cbn [prop_get].
      * destruct (String.eqb_spec name n) as [->|_]; [contradiction | reflexivity].
      * rewrite IH. reflexivity.
Qed.

Lemma prop_delete_absent (name : string) (o : ValidatedFormFields) :
  prop_get name o = None -> prop_delete name o = o.
Proof.
  induction o as [|[k r] o IH]; cbn [prop_delete prop_get]; [reflexivity|].
  destruct (String.eqb k name); [discriminate|].
  intros H. rewrite (IH H). reflexivity.
Qed.


(** A key that is new and not an array index becomes the last one. *)
Lemma keys_prop_set_absent (name : string) (r : ref) (o : ValidatedFormFields) :
  prop_get name o = None -> arrayIndex name = None ->
  keys (prop_set name r o) = keys o ++ [name].
Proof.
  intros Habsent Hname. unfold prop_set. rewrite Habsent.
  assert (Hlast : forall k, listedBefore name k = false)
    by (intros k; unfold listedBefore; rewrite Hname; reflexivity).
  clear Habsent.
  induction o as [|[k r0] o IH]; cbn [prop_insert keys map fst app];
    [reflexivity|].
  rewrite Hlast. cbn [map fst]. f_equal. exact IH.
Qed.

(** Where a new key is listed: the keys before it are array indices below
    its own, and the key after it, if any, is not. *)
Lemma keys_prop_set_position (name : string) (r : ref) (o : ValidatedFormFields) :
  prop_get name o = None ->
  exists before after : list string,
    keys o = before ++ after /\
    keys (prop_set name r o) = before ++ name :: after /\
    (forall k, In k before -> listedBefore name k = false) /\
    match after with
    | k :: _ => listedBefore name k = true
    | [] => True
    end.
Proof.
  intros Habsent. unfold prop_set. rewrite Habsent. clear Habsent.
  induction o as [|[k r0] o IH]; cbn [prop_insert keys map fst].
  - exists [], []. repeat split. intros k [].
  - destruct (listedBefore name k) eqn:E; cbn [map fst].
    + exists [], (k :: keys o). repeat split; [intros k' []|exact E].
    + destruct IH as (before & after & Hold & Hnew & Hb & Ha).
      exists (k :: before), after. unfold keys in *.
      rewrite Hold, Hnew. repeat split; [|exact Ha].
      intros k' [<-|Hin]; [exact E | exact (Hb k' Hin)].
Qed.

Lemma prop_get_In_pair (name : string) (o : ValidatedFormFields) (r : ref) :
  prop_get name o = Some r -> In (name, r) o.
Proof.
  induction o as [|[k r0] o IH]; cbn [prop_get In]; [discriminate|].
  destruct (String.eqb_spec k name) as [->|Hne].
  - intros [= ->]. left. reflexivity.
  - intros H. right. exact (IH H).
Qed.

(** The fields objects after [delete fields[name]] on the object at [i]. *)
Lemma fieldsAt_delete (hp : Heap Env) (name : string) (i fs : ref) :
  fieldsAt {| fieldStates := fieldStates hp;
              fieldsObjects := alter (prop_delete name) i (fieldsObjects hp) |} fs
  = if decide (i = fs) then prop_delete name (fieldsAt hp fs) else fieldsAt hp fs.
Proof.
  unfold fieldsAt. cbn [fieldsObjects].
  destruct (decide (i = fs)) as [->|Hne].
  - rewrite list_lookup_alter_eq. destruct (fieldsObjects hp !! fs); reflexivity.
  - rewrite list_lookup_alter_ne by exact Hne. reflexivity.
Qed.

Lemma removeField_world (name : string) (w : World Env) :
  heap (removeField name w)
  = {| fieldStates := fieldStates (heap w);
       fieldsObjects := alter (prop_delete name) (fields (buffered w))
                              (fieldsObjects (heap w)) |} /\
  validatorState (removeField name w) = validatorState w /\
  buffered (removeField name w) = buffered w /\
  effects (removeField name w) = effects w ++ [SetValidatorState].
Proof.
  unfold removeField. rewrite setValidatorState_updater.
  unfold validatorState, buffered.
  cbn [heap hook effects BufferedState.state BufferedState.stateBufferRef
       fst snd spread fields].
  rewrite spread_id. auto.
Qed.

Lemma heap_eta (hp : Heap Env) :
  {| fieldStates := fieldStates hp; fieldsObjects := fieldsObjects hp |} = hp.
Proof. destruct hp. reflexivity. Qed.

(** X8: [removeField] deletes the key from the fields object the buffered
    state holds, in place: the name is gone from every state that shares
    that object (the committed one included, before any commit), every
    other name and every other fields object reads as before, no record
    changes; removing a name that is not there, or removing twice, leaves
    the heap as it is, though a buffered write is issued each time. *)
Theorem removeField_deletes_key_in_place (name : string) (w : World Env) :
  validatorState (removeField name w) = validatorState w /\
  buffered (removeField name w) = buffered w /\
  fieldStates (heap (removeField name w)) = fieldStates (heap w) /\
  effects (removeField name w) = effects w ++ [SetValidatorState] /\
  getField (heap (removeField name w)) (fields (buffered w)) name = None /\
  (forall (fs : ref) (n : string),
      fs <> fields (buffered w) \/ n <> name ->
      getField (heap (removeField name w)) fs n = getField (heap w) fs n) /\
  (fields (validatorState w) = fields (buffered w) ->
   getField (heap (removeField name w))
            (fields (validatorState (removeField name w))) name = None) /\
  (prop_get name (fieldsAt (heap w) (fields (buffered w))) = None ->
   heap (removeField name w) = heap w) /\
  heap (removeField name (removeField name w)) = heap (removeField name w).
Proof.
  destruct (removeField_world name w) as (Hheap & Hs & Hb & He).
  assert (Hgone : getField (heap (removeField name w)) (fields (buffered w)) name
                  = None).
  { rewrite Hheap. unfold getField. rewrite fieldsAt_delete.
    destruct (decide _) as [_|Hne]; [|contradiction].
    rewrite prop_get_delete_eq. reflexivity. }
  assert (Habsent : forall hp : Heap Env, forall i : ref,
             prop_get name (fieldsAt hp i) = None ->
             {| fieldStates := fieldStates hp;
                fieldsObjects := alter (prop_delete name) i (fieldsObjects hp) |}
             = hp).
  { intros hp i H. rewrite <- (heap_eta hp) at 3. f_equal.
    rewrite (list_alter_ext (prop_delete name) id (fieldsObjects hp)
               (fieldsObjects hp) i); [apply list_alter_id; reflexivity | | reflexivity].
    intros o Ho. unfold fieldsAt in H. rewrite Ho in H.
    apply prop_delete_absent. exact H. }
  split; [exact Hs|]. split; [exact Hb|]. split; [rewrite Hheap; reflexivity|].
  split; [exact He|]. split; [exact Hgone|].
  split; [|split; [|split]].
  - intros fs n Hcase. rewrite Hheap. unfold getField at 1 2.
    rewrite fieldsAt_delete. cbn [fieldStates].
    destruct (decide (fields (buffered w) = fs)) as [Heq|Hne]; [|reflexivity].
    destruct Hcase as [Hfs|Hn]; [congruence|].
    rewrite (prop_get_delete_ne _ _ _ Hn). reflexivity.
  - intros Hshared. rewrite Hs, Hshared. exact Hgone.
  - intros H. rewrite Hheap. apply Habsent. exact H.
  - destruct (removeField_world name (removeField name w)) as (Hheap2 & _).
    rewrite Hheap2, Hb. apply Habsent.
    rewrite Hheap, fieldsAt_delete.
    destruct (decide _) as [_|Hne]; [|contradiction].
    apply prop_get_delete_eq.
Qed.

(** Reading a record after an assignment to an offset. *)
Lemma getField_assign_yOffset (hp : Heap Env) (fs : ref) (name : string)
  (r : ref) (y : Z) :
  getField (assign_yOffset r y hp) fs name =
  match getField hp fs name with
  | Some (r', f) => Some (r', if decide (r = r') then set_yOffset y f else f)
  | None => None
  end.
Proof.
  unfold getField, assign_yOffset, fieldsAt. cbn [fieldsObjects fieldStates].
  destruct (fieldsObjects hp !! fs) as [o|]; [|reflexivity].
  destruct (prop_get name o) as [r'|]; [|reflexivity].
  destruct (decide (r = r')) as [->|Hne].
  - rewrite list_lookup_alter_eq.
    destruct (fieldStates hp !! r'); cbn; [|reflexivity].
    destruct (decide (r' = r')); [reflexivity | contradiction].
  - rewrite list_lookup_alter_ne by exact Hne.
    destruct (fieldStates hp !! r'); [|reflexivity].
    destruct (decide (r = r')); [contradiction | reflexivity].
Qed.

Lemma updateFieldOffsetY_world (name : string) (y : Z) (w : World Env) :
  heap (updateFieldOffsetY name y w)
  = match getField (heap w) (fields (buffered w)) name with
    | Some (r, _) => assign_yOffset r y (heap w)
    | None => heap w
    end /\
  validatorState (updateFieldOffsetY name y w) = validatorState w /\
  buffered (updateFieldOffsetY name y w) = buffered w /\
  effects (updateFieldOffsetY name y w) = effects w ++ [SetValidatorState].
Proof.
  unfold updateFieldOffsetY. rewrite setValidatorState_updater.
  unfold validatorState, buffered.
  cbn [heap hook effects BufferedState.state BufferedState.stateBufferRef].
  rewrite spread_id.
  destruct (getField (heap w) (fields (BufferedState.stateBufferRef (hook w))) name)
    as [[r f]|]; cbn [fst snd]; auto.
Qed.

(** X9: [updateFieldOffsetY] assigns the offset to the record the buffered
    state holds under the name, in place: every state and every name that
    reaches that record reads the new offset at once, with the flag and
    the closures as they were, and every other record is as before; for
    a name the buffered state does not hold the heap is unchanged.  In
    both cases one buffered write is issued and neither state changes. *)
Theorem updateFieldOffsetY_assigns_in_place (name : string) (y : Z)
  (w : World Env) :
  validatorState (updateFieldOffsetY name y w) = validatorState w /\
  buffered (updateFieldOffsetY name y w) = buffered w /\
  fieldsObjects (heap (updateFieldOffsetY name y w)) = fieldsObjects (heap w) /\
  effects (updateFieldOffsetY name y w) = effects w ++ [SetValidatorState] /\
  (forall (r : ref) (f : ValidatedFieldState Env),
      getField (heap w) (fields (buffered w)) name = Some (r, f) ->
      getField (heap (updateFieldOffsetY name y w)) (fields (buffered w)) name
      = Some (r, {| valid := valid f; yOffset := y;
                    measureYOffset := measureYOffset f;
                    validateCallback := validateCallback f |}) /\
      forall (fs : ref) (n : string),
        getField (heap (updateFieldOffsetY name y w)) fs n
        = match getField (heap w) fs n with
          | Some (r', f') =>
              Some (r', if decide (r = r') then set_yOffset y f' else f')
          | None => None
          end) /\
  (getField (heap w) (fields (buffered w)) name = None ->
   heap (updateFieldOffsetY name y w) = heap w).
Proof.
  destruct (updateFieldOffsetY_world name y w) as (Hheap & Hs & Hb & He).
  split; [exact Hs|]. split; [exact Hb|].
  split; [|split; [exact He|split]].
  - rewrite Hheap. destruct (getField _ _ name) as [[r f]|]; reflexivity.
  - intros r f Hg. rewrite Hg in Hheap. rewrite Hheap. split.
    + rewrite getField_assign_yOffset, Hg.
      destruct (decide (r = r)); [reflexivity | contradiction].
    + intros fs n. apply getField_assign_yOffset.
  - intros Hg. rewrite Hg in Hheap. exact Hheap.
Qed.

(** *** addField copies the fields object *)

(** Adding a record and a fields object at the end of a well-formed heap
    changes nothing in what the existing fields objects hold. *)
Lemma getField_grown (hp : Heap Env) (x : ValidatedFieldState Env)
  (o : ValidatedFormFields) (fs : ref) (n : string) :
  wfHeap hp ->
  (fs < length (fieldsObjects hp))%nat ->
  fieldsAt {| fieldStates := fieldStates hp ++ [x];
              fieldsObjects := fieldsObjects hp ++ [o] |} fs = fieldsAt hp fs /\
  getField {| fieldStates := fieldStates hp ++ [x];
              fieldsObjects := fieldsObjects hp ++ [o] |} fs n = getField hp fs n.
Proof.
  intros Hwf Hlt.
  assert (Hat : fieldsAt {| fieldStates := fieldStates hp ++ [x];
                            fieldsObjects := fieldsObjects hp ++ [o] |} fs
                = fieldsAt hp fs).
  { unfold fieldsAt. cbn [fieldsObjects]. rewrite lookup_app_l by exact Hlt.
    reflexivity. }
  split; [exact Hat|]. unfold getField. rewrite Hat. cbn [fieldStates].
  destruct (prop_get n (fieldsAt hp fs)) as [r|] eqn:E; [|reflexivity].
  destruct (wfObject_fieldsAt hp fs Hwf) as [_ Hr].
  rewrite lookup_app_l by exact (Hr n r (prop_get_In_pair _ _ _ E)).
  reflexivity.
Qed.

Lemma addField_world (name : string) (isValid : bool)
  (callback : Env -> bool) (measure : Env -> Z) (w : World Env) :
  getField (heap w) (fields (validatorState w)) name = None ->
  inheritedName name = false ->
  heap (addField name isValid callback measure w)
  = {| fieldStates :=
         fieldStates (heap w)
         ++ [{| valid := isValid; yOffset := 0;
                measureYOffset := measure; validateCallback := callback |}];
       fieldsObjects :=
         fieldsObjects (heap w)
         ++ [prop_set name (length (fieldStates (heap w)))
                      (fieldsAt (heap w) (fields (buffered w)))] |} /\
  validatorState (addField name isValid callback measure w) = validatorState w /\
  buffered (addField name isValid callback measure w)
  = {| ready := ready (buffered w); fields := length (fieldsObjects (heap w)) |}.
Proof.
  intros Hguard Hown. unfold addField.
  rewrite Hguard, Hown, setValidatorState_updater.
  unfold validatorState, buffered.
  cbn [heap hook BufferedState.state BufferedState.stateBufferRef fst snd].
  auto.
Qed.

(** Under an inherited name the guard of [addField] is met by the
    inherited member. *)
Lemma addField_inherited (name : string) (isValid : bool)
  (callback : Env -> bool) (measure : Env -> Z) (w : World Env) :
  inheritedName name = true ->
  addField name isValid callback measure w
  = emit (ConsoleWarn (duplicateWarning name)) w.
Proof.
  intros Hin. unfold addField. rewrite Hin.
  destruct (getField _ _ name); reflexivity.
Qed.


Lemma In_keys_prop_set_iff (name : string) (r : ref) (o : ValidatedFormFields)
  (k : string) :
  In k (keys (prop_set name r o)) <-> k = name \/ In k (keys o).
Proof.
  split; [apply In_keys_prop_set|].
  intros [->|Hin].
  - apply (prop_get_In _ _ r). apply prop_get_set.
  - unfold prop_set. destruct (prop_get name o).
    + rewrite keys_prop_replace. exact Hin.
    + apply In_keys_prop_insert. right. exact Hin.
Qed.

Lemma fieldsAt_new_object (S0 : list (ValidatedFieldState Env))
  (objs : list ValidatedFormFields) (o : ValidatedFormFields) :
  fieldsAt {| fieldStates := S0; fieldsObjects := objs ++ [o] |} (length objs) = o.
Proof.
  unfold fieldsAt. cbn [fieldsObjects].
  rewrite (list_lookup_middle objs [] o (length objs) eq_refl). reflexivity.
Qed.

(** X10: a first registration copies on write.  On a well-formed world
    whose committed fields object has no record under the name: if the
    name is one that objects inherit from [Object.prototype], the guard is
    met by the inherited member, and [addField] warns and builds nothing.
    Otherwise it builds a new fields object and a new record and touches
    nothing that exists: every fields object of the old heap, the
    committed one among them, holds what it held; the buffered state
    points to the new object, where the name reads the new record (offset
    0, the given flag and closures) and every other name reads what the
    buffered state read before; its keys are the old keys and the name; a
    name the buffer already had keeps its place, a new one is listed after
    the keys [Object.keys] puts before it (array indices below its own, if
    it is an array index; every key, if it is not). *)
Theorem addField_copies_on_write (name : string) (isValid : bool)
  (callback : Env -> bool) (measure : Env -> Z) (w : World Env) :
  wfWorld w ->
  getField (heap w) (fields (validatorState w)) name = None ->
  (inheritedName name = true ->
   addField name isValid callback measure w
   = emit (ConsoleWarn (duplicateWarning name)) w) /\
  (inheritedName name = false ->
   validatorState (addField name isValid callback measure w) = validatorState w /\
   ready (buffered (addField name isValid callback measure w))
   = ready (buffered w) /\
   fields (buffered (addField name isValid callback measure w))
   = length (fieldsObjects (heap w)) /\
   (forall (fs : ref) (n : string),
       (fs < length (fieldsObjects (heap w)))%nat ->
       fieldsAt (heap (addField name isValid callback measure w)) fs
       = fieldsAt (heap w) fs /\
       getField (heap (addField name isValid callback measure w)) fs n
       = getField (heap w) fs n) /\
   getField (heap (addField name isValid callback measure w))
            (fields (buffered (addField name isValid callback measure w))) name
   = Some (length (fieldStates (heap w)),
           {| valid := isValid; yOffset := 0;
              measureYOffset := measure; validateCallback := callback |}) /\
   (forall n : string,
       n <> name ->
       getField (heap (addField name isValid callback measure w))
                (fields (buffered (addField name isValid callback measure w))) n
       = getField (heap w) (fields (buffered w)) n) /\
   (forall k : string,
       In k (keys (fieldsAt (heap (addField name isValid callback measure w))
                            (fields (buffered
                                       (addField name isValid callback measure w)))))
       <-> k = name \/ In k (keys (fieldsAt (heap w) (fields (buffered w))))) /\
   (prop_get name (fieldsAt (heap w) (fields (buffered w))) <> None ->
    keys (fieldsAt (heap (addField name isValid callback measure w))
                   (fields (buffered (addField name isValid callback measure w))))
    = keys (fieldsAt (heap w) (fields (buffered w)))) /\
   (prop_get name (fieldsAt (heap w) (fields (buffered w))) = None ->
    (exists before after : list string,
        keys (fieldsAt (heap w) (fields (buffered w))) = before ++ after /\
        keys (fieldsAt (heap (addField name isValid callback measure w))
                       (fields (buffered
                                  (addField name isValid callback measure w))))
        = before ++ name :: after /\
        (forall k, In k before -> listedBefore name k = false) /\
        match after with
        | k :: _ => listedBefore name k = true
        | [] => True
        end) /\
    (arrayIndex name = None ->
     keys (fieldsAt (heap (addField name isValid callback measure w))
                    (fields (buffered
                               (addField name isValid callback measure w))))
     = keys (fieldsAt (heap w) (fields (buffered w))) ++ [name]))).
Proof.
  intros Hw Hguard. split; [apply addField_inherited|]. intros Hown.
  pose proof Hw as (Hwf & Hc & Hb & H0).
  destruct (addField_world name isValid callback measure w Hguard Hown)
    as (Hheap & Hs & Hbuf).
  rewrite Hheap, Hs, Hbuf. cbn [ready fields].
  split; [reflexivity|]. split; [reflexivity|]. split; [reflexivity|].
  split; [|split; [|split; [|split; [|split]]]].
  - intros fs n Hlt. apply getField_grown; assumption.
  - unfold getField. rewrite fieldsAt_new_object, prop_get_set.
    cbn [fieldStates].
    rewrite (list_lookup_middle (fieldStates (heap w)) [] _ _ eq_refl).
    reflexivity.
  - intros n Hne. unfold getField. rewrite fieldsAt_new_object.
    rewrite (prop_get_set_ne _ _ _ _ Hne). cbn [fieldStates].
    destruct (prop_get n (fieldsAt (heap w) (fields (buffered w)))) as [r|] eqn:E;
      [|reflexivity].
    destruct (wfObject_fieldsAt (heap w) (fields (buffered w)) Hwf) as [_ Hr].
    rewrite lookup_app_l by exact (Hr n r (prop_get_In_pair _ _ _ E)).
    reflexivity.
  - intros k. rewrite fieldsAt_new_object. apply In_keys_prop_set_iff.
  - intros Hthere. rewrite fieldsAt_new_object. unfold prop_set.
    destruct (prop_get name (fieldsAt (heap w) (fields (buffered w))));
      [apply keys_prop_replace | contradiction].
  - intros Habsent. rewrite fieldsAt_new_object. split.
    + apply keys_prop_set_position. exact Habsent.
    + intros Hname. apply keys_prop_set_absent; assumption.
Qed.


End RegistryFrames.

(* ===================================================================== *)
(** ** From a failed validation to the scroll *)
(* ===================================================================== *)

Section ScrollAfterValidation.

Context {Env : Type}.

Lemma prop_get_iff_In (o : ValidatedFormFields) (k : string) (r : ref) :
  List.NoDup (keys o) -> (prop_get k o = Some r <-> In (k, r) o).
Proof.
  intros Hnd. split; [apply prop_get_In_pair|].
  induction o as [|[k0 r0] o IH]; cbn [In prop_get]; [intros []|].
  cbn [keys map fst] in Hnd. inversion Hnd as [|? ? Hnotin Hrest]; subst.
  intros [[= -> ->]|Hin].
  - rewrite String.eqb_refl. reflexivity.
  - destruct (String.eqb_spec k0 k) as [->|Hne]; [|exact (IH Hrest Hin)].
    exfalso. apply Hnotin. unfold keys.
    exact (in_map fst o (k, r) Hin).
Qed.

(** With distinct keys, the entries of a fields object are what the
    property reads return. *)
Lemma entries_In (hp : Heap Env) (fs : ref) (k : string)
  (f : ValidatedFieldState Env) :
  List.NoDup (keys (fieldsAt hp fs)) ->
  (In (k, Some f) (entries hp fs) <-> exists r : ref, getField hp fs k = Some (r, f)).
Proof.
  intros Hnd. unfold entries, getField. split.
  - intros Hin. apply in_map_iff in Hin. destruct Hin as ([k' r] & Heq & Hin).
    cbn [fst snd] in Heq. injection Heq as -> Hf.
    apply (prop_get_iff_In _ _ _ Hnd) in Hin. exists r. rewrite Hin, Hf.
    reflexivity.
  - intros (r & Hg).
    destruct (prop_get k (fieldsAt hp fs)) as [r0|] eqn:E; [|discriminate].
    destruct (fieldStates hp !! r0) as [f0|] eqn:F; [|discriminate].
    injection Hg as -> ->.
    apply in_map_iff. exists (k, r). cbn [fst snd]. rewrite F.
    split; [reflexivity | apply prop_get_In_pair; exact E].
Qed.

Lemma forallb_false_In {A : Type} (p : A -> bool) (l : list A) :
  forallb p l = false -> exists x : A, In x l /\ p x = false.
Proof.
  induction l as [|x l IH]; cbn [forallb]; [discriminate|].
  destruct (p x) eqn:E; cbn [andb].
  - intros H. destruct (IH H) as (y & Hy & Hp). exists y. split; [right|]; auto.
  - intros _. exists x. split; [left; reflexivity | exact E].
Qed.

(** *** Between the call and the commit *)

Lemma offsetsOnly_refl (hp : Heap Env) : offsetsOnly hp hp.
Proof.
  split; [reflexivity|]. split; [reflexivity|].
  intros r f H. exists f. auto.
Qed.

Lemma offsetsOnly_trans (a b c : Heap Env) :
  offsetsOnly a b -> offsetsOnly b c -> offsetsOnly a c.
Proof.
  intros (Ho & Hl & Hr) (Ho' & Hl' & Hr').
  split; [congruence|]. split; [congruence|].
  intros r f H. destruct (Hr r f H) as (g & Hg & Hv & Hm & Hc).
  destruct (Hr' r g Hg) as (h & Hh & Hv' & Hm' & Hc').
  exists h. split; [exact Hh|]. split; [congruence|]. split; congruence.
Qed.

Lemma assign_yOffset_offsetsOnly (r : ref) (y : Z) (hp : Heap Env) :
  offsetsOnly hp (assign_yOffset r y hp).
Proof.
  unfold offsetsOnly, assign_yOffset. cbn [fieldsObjects fieldStates].
  split; [reflexivity|]. split; [apply length_alter|].
  intros r' f H. destruct (decide (r = r')) as [->|Hne].
  - exists (set_yOffset y f). rewrite list_lookup_alter_eq, H. cbn. auto.
  - exists f. rewrite list_lookup_alter_ne by exact Hne. auto.
Qed.

Lemma getField_offsetsOnly (hp hp' : Heap Env) (fs : ref) (name : string) :
  offsetsOnly hp hp' ->
  match getField hp fs name with
  | Some (r, f) =>
      exists f' : ValidatedFieldState Env,
        getField hp' fs name = Some (r, f') /\
        valid f' = valid f /\ validateCallback f' = validateCallback f
  | None => getField hp' fs name = None
  end.
Proof.
  intros (Ho & Hl & Hr). unfold getField, fieldsAt. rewrite Ho.
  destruct (fieldsObjects hp !! fs) as [o|]; [|reflexivity].
  destruct (prop_get name o) as [r|]; [|reflexivity].
  destruct (fieldStates hp !! r) as [f|] eqn:E.
  - destruct (Hr r f E) as (f' & -> & Hv & _ & Hc). exists f'. auto.
  - apply lookup_ge_None in E. rewrite <- Hl in E.
    apply lookup_ge_None in E. rewrite E. reflexivity.
Qed.

Variable platformIsWeb : bool.

(** Measurements resolving, the scroll position being noted and time
    passing change offsets only and leave both states alone. *)
Lemma unprompted_perform (a : Action Env) (w w' : World Env) :
  perform platformIsWeb a w = Some w' ->
  unprompted a = true ->
  offsetsOnly (heap w) (heap w') /\
  validatorState w' = validatorState w /\
  buffered w' = buffered w.
Proof.
  destruct a; cbn [perform unprompted]; try discriminate; intros H _.
  - injection H as <-. split; [apply offsetsOnly_refl | auto].
  - unfold measureResolved in H.
    destruct (pending w !! i) as [[name measure]|]; [|discriminate].
    injection H as <-.
    match goal with
    | |- context [updateFieldOffsetY ?n ?y ?w0] =>
        destruct (updateFieldOffsetY_world n y w0) as (Hheap & Hs & Hb & _);
        rewrite Hheap, Hs, Hb
    end.
    split; [|auto].
    cbn [heap]. unfold buffered. cbn [hook].
    destruct (getField _ _ name) as [[r f]|];
      [apply assign_yOffset_offsetsOnly | apply offsetsOnly_refl].
  - unfold tick in H. destruct (clock w <=? t); [|discriminate].
    injection H as <-. split; [apply offsetsOnly_refl | auto].
Qed.

Lemma unprompted_performAll (acts : list (Action Env)) :
  forall w w' : World Env,
    performAll platformIsWeb acts w = Some w' ->
    forallb unprompted acts = true ->
    offsetsOnly (heap w) (heap w') /\
    validatorState w' = validatorState w /\
    buffered w' = buffered w.
Proof.
  induction acts as [|a acts IH]; intros w w' H Hall;
    cbn [performAll forallb] in *.
  - injection H as <-. split; [apply offsetsOnly_refl | auto].
  - apply andb_prop in Hall. destruct Hall as [Ha Hall].
    destruct (perform platformIsWeb a w) as [w1|] eqn:E; [|discriminate].
    destruct (unprompted_perform a w w1 E Ha) as (Ho1 & Hs1 & Hb1).
    destruct (IH w1 w' H Hall) as (Ho2 & Hs2 & Hb2).
    split; [eapply offsetsOnly_trans; eassumption|]. split; congruence.
Qed.

(** When the effect scans the records, after the walk of [validateForm]
    and after offsets have been assigned, the records whose flag is
    [false] are those whose predicate failed during the walk. *)
Lemma invalid_at_scan (env : Env) (hp hp3 : Heap Env) (fs : ref) (y : Z) :
  List.NoDup (keys (fieldsAt hp fs)) ->
  offsetsOnly (snd (fold_left (validateFormStep env fs)
                              (keys (fieldsAt hp fs)) (true, hp))) hp3 ->
  (In y (invalidOffsets (entries hp3 fs)) <->
   exists (name : string) (r : ref) (f : ValidatedFieldState Env),
     getField hp3 fs name = Some (r, f) /\
     validateCallback f env = false /\ yOffset f = y).
Proof.
  intros Hnd Hoff.
  destruct (validateForm_fold env fs hp (keys (fieldsAt hp fs)) true hp
              (validOnly_refl _)) as [_ Hvo].
  pose proof (validateFold_flags env fs hp) as Hflags.
  set (hpF := snd (fold_left (validateFormStep env fs)
                             (keys (fieldsAt hp fs)) (true, hp))) in *.
  assert (Hnd3 : List.NoDup (keys (fieldsAt hp3 fs))).
  { destruct Hoff as (Ho & _). unfold fieldsAt. rewrite Ho.
    fold (fieldsAt hpF fs). rewrite (fieldsAt_validOnly _ _ fs Hvo). exact Hnd. }
  assert (Hback : forall (k : string) (r : ref) (f3 : ValidatedFieldState Env),
             getField hp3 fs k = Some (r, f3) ->
             valid f3 = validateCallback f3 env).
  { intros k r f3 Hg3.
    pose proof (getField_offsetsOnly hpF hp3 fs k Hoff) as H.
    destruct (getField hpF fs k) as [[r0 fF]|] eqn:GF; [|congruence].
    destruct H as (f' & Hg' & Hv & Hc). rewrite Hg3 in Hg'.
    injection Hg' as <- <-. rewrite Hv, Hc. exact (Hflags k r fF GF). }
  rewrite invalidOffsets_In. split.
  - intros (k & f3 & Hin & Hv & Hy).
    apply (entries_In hp3 fs k f3 Hnd3) in Hin. destruct Hin as (r & Hg3).
    exists k, r, f3. split; [exact Hg3|]. split; [|exact Hy].
    rewrite <- (Hback k r f3 Hg3). exact Hv.
  - intros (name & r & f3 & Hg3 & Hc & Hy).
    exists name, f3. split; [apply (entries_In hp3 fs name f3 Hnd3); eauto|].
    split; [|exact Hy]. rewrite (Hback name r f3 Hg3). exact Hc.
Qed.

(** X12: from a failed validation to the scroll.  On a well-formed, ready
    form whose scroll view resolves to a scrollable node, let the hook's
    [validateForm] return [false]; let then, in any number and order,
    measurements resolve (those the call asked for among them), the scroll
    position be noted and time pass; and let the timer commit.  The queued
    effect, run on the committed state, calls the [scrollTo] utility once,
    with [y = max (o - m) 0] and [animated], where [o] is the smallest
    offset, as the records hold it when the effect runs, among the
    registered records whose predicate failed during the call; the queue
    flag is cleared, so the effect running again scrolls no more. *)
Theorem failed_validateForm_scrolls_to_topmost_failing_field
  (env : Env) (scrollView : option Utils.Node) (node : Utils.Node) (m : Z)
  (c c1 : Consumer) (w w1 w2 w3 : World Env) (acts : list (Action Env)) :
  wfWorld w ->
  ready (validatorState w) = true ->
  Utils.getScrollableNode scrollView = Some node ->
  hookValidateForm env true c w = (false, c1, w1) ->
  forallb unprompted acts = true ->
  performAll platformIsWeb acts w1 = Some w2 ->
  timerFires w2 = Some w3 ->
  validatorState w3 = validatorState w /\
  exists o : Z,
    (exists (name : string) (r : ref) (f : ValidatedFieldState Env),
        getField (heap w3) (fields (validatorState w3)) name = Some (r, f) /\
        validateCallback f env = false /\ yOffset f = o) /\
    (forall (name : string) (r : ref) (f : ValidatedFieldState Env),
        getField (heap w3) (fields (validatorState w3)) name = Some (r, f) ->
        validateCallback f env = false -> o <= yOffset f) /\
    queueEffect scrollView m w3 c1
    = {| queueScrollToInvalidFields := false;
         scrollCalls :=
           scrollCalls c ++
           match Utils.scrollTo (Some node)
                   {| Utils.offset_x := None;
                      Utils.offset_y := Some (Z.max (o - m) 0);
                      Utils.animated := true |} with
           | Some call => [(node, call)]
           | None => []
           end |} /\
    queueEffect scrollView m w3 (queueEffect scrollView m w3 c1)
    = queueEffect scrollView m w3 c1.
Proof.
  intros Hw Hready Hnode Hcall Hacts Hrun Hfire.
  pose proof Hw as (Hwf & _).
  destruct (wfObject_fieldsAt (heap w) (fields (validatorState w)) Hwf)
    as [Hnd _].
  unfold hookValidateForm in Hcall.
  destruct (validateForm_ready_heap env w Hready) as (Hres & Hheap & Hst & Hbuf).
  destruct (validateForm env w) as [b wv]. cbn [fst snd] in *.
  injection Hcall as -> <- <-. cbn [negb andb] in *.
  destruct (unprompted_performAll acts wv w2 Hrun Hacts) as (Hoff & Hs2 & Hb2).
  assert (Hcommit : heap w3 = heap w2 /\ validatorState w3 = buffered w2).
  { unfold timerFires in Hfire.
    destruct (BufferedState.commitTimeoutRef (hook w2)); [|discriminate].
    destruct (_ <=? _); [|discriminate]. injection Hfire as <-.
    split; reflexivity. }
  destruct Hcommit as [Hheap3 Hst3].
  rewrite Hb2, Hbuf in Hst3. rewrite Hheap in Hoff. rewrite <- Hheap3 in Hoff.
  unfold registeredNames in Hres, Hoff.
  split; [exact Hst3|]. rewrite Hst3.
  (* some registered record fails its predicate *)
  destruct (validateForm_fold env (fields (validatorState w)) (heap w)
              (keys (fieldsAt (heap w) (fields (validatorState w))))
              true (heap w) (validOnly_refl _)) as [Hfst Hvo].
  rewrite <- Hres in Hfst. cbn [andb] in Hfst. symmetry in Hfst.
  destruct (forallb_false_In _ _ Hfst) as (bad & Hbad & Hfails).
  destruct (wf_key_has_record (heap w) _ bad Hwf Hbad) as (rb & fb & Hgb).
  unfold passes in Hfails. rewrite Hgb in Hfails.
  pose proof (getField_validOnly _ _ (fields (validatorState w)) bad Hvo) as HF.
  rewrite Hgb in HF. destruct HF as (fF & HgF & _ & _ & HcF).
  pose proof (getField_offsetsOnly _ _ (fields (validatorState w)) bad Hoff)
    as H3.
  rewrite HgF in H3. destruct H3 as (f3 & Hg3 & _ & Hc3).
  pose proof (invalid_at_scan env (heap w) (heap w3)
                (fields (validatorState w))) as Hinv.
  pose proof (scanInvalid_fold
                (entries (heap w3) (fields (validatorState w))) false None)
    as Hscan.
  assert (Hsome : In (yOffset f3)
                     (invalidOffsets
                        (entries (heap w3) (fields (validatorState w))))).
  { apply (Hinv (yOffset f3) Hnd Hoff). exists bad, rb, f3.
    split; [exact Hg3|]. split; [|reflexivity]. rewrite Hc3, HcF. exact Hfails. }
  destruct (invalidOffsets _) as [|y0 ys] eqn:E; [destruct Hsome|].
  destruct Hscan as (o & Hfold & [Ho|[=]] & Hmin & _).
  exists o. split; [|split; [|split]].
  - apply (Hinv o Hnd Hoff) in Ho. exact Ho.
  - intros name r f Hg Hc. apply Hmin.
    apply (Hinv (yOffset f) Hnd Hoff). exists name, r, f. auto.
  - unfold queueEffect, runScrollToInvalidFields, scrollToInvalidFields.
    cbn [queueScrollToInvalidFields scrollCalls].
    rewrite Hnode, Hst3, Hfold.
    destruct (Utils.scrollTo _ _) as [call|];
      cbn [scrollCalls]; [reflexivity | rewrite app_nil_r; reflexivity].
  - unfold queueEffect at 1.
    assert (Hq : queueScrollToInvalidFields
                   (queueEffect scrollView m w3
                      {| queueScrollToInvalidFields := true;
                         scrollCalls := scrollCalls c |}) = false)
      by reflexivity.
    rewrite Hq. reflexivity.
Qed.

(** X16: the shape of every scroll.  Whenever [scrollToInvalidFields]
    calls the [scrollTo] utility, the node is the one the scroll view
    resolves to and the offset has no [x], a [y] that is not negative, and
    [animated] set.  So a node with [scrollTo], or else with
    [scrollResponderScrollTo], is sent to [y]; a node with only
    [scrollToOffset] is sent to [y] unless it is horizontal, in which case
    the offset passed is [undefined]; and a node that has none of the
    three methods, which [getScrollableNode] may still return, gets no
    call. *)
Theorem scroll_call_has_y_only (scrollView : option Utils.Node) (m : Z)
  (hp : Heap Env) (st : ValidatorState)
  (node : Utils.Node) (off : Utils.ScrollOffset) :
  scrollToInvalidFields scrollView m hp st = Some (node, off) ->
  Utils.getScrollableNode scrollView = Some node /\
  exists y : Z,
    0 <= y /\
    off = {| Utils.offset_x := None; Utils.offset_y := Some y;
             Utils.animated := true |} /\
    (Utils.has_scrollTo node = true ->
     Utils.scrollTo (Some node) off
     = Some (Utils.call_scrollTo None (Some y) true)) /\
    (Utils.has_scrollTo node = false ->
     Utils.has_scrollToOffset node = true ->
     Utils.scrollTo (Some node) off
     = Some (Utils.call_scrollToOffset
               (if Utils.horizontal node then None else Some y) true)) /\
    (Utils.has_scrollTo node = false ->
     Utils.has_scrollToOffset node = false ->
     Utils.has_scrollResponderScrollTo node = true ->
     Utils.scrollTo (Some node) off
     = Some (Utils.call_scrollResponderScrollTo None (Some y) true)) /\
    (Utils.has_scrollTo node = false ->
     Utils.has_scrollToOffset node = false ->
     Utils.has_scrollResponderScrollTo node = false ->
     Utils.scrollTo (Some node) off = None).
Proof.
  unfold scrollToInvalidFields.
  destruct (Utils.getScrollableNode scrollView) as [n|]; [|discriminate].
  destruct (fold_left scanInvalid (entries hp (fields st)) (false, None))
    as [[|] [o|]]; try discriminate.
  intros [= -> <-]. split; [reflexivity|].
  exists (Z.max (o - m) 0). split; [apply Z.le_max_r|].
  split; [reflexivity|]. unfold Utils.scrollTo.
  cbn [Utils.offset_x Utils.offset_y Utils.animated].
  split; [intros ->; reflexivity|].
  split; [intros -> ->; reflexivity|].
  split; [intros -> -> ->; reflexivity|].
  intros -> -> ->. reflexivity.
Qed.

End ScrollAfterValidation.

(* ===================================================================== *)
(** ** The measurements validateForm asks for *)
(* ===================================================================== *)

Section Measurements.

Context {Env : Type}.

Variable platformIsWeb : bool.

Variable env : Env.

Local Abbreviation webAdjustmentOf w :=
  (if platformIsWeb then match scrollYRef w with Some y => y | None => 0 end
   else 0).

(** The first pending measurement resolves. *)
Lemma measureResolved_head (k : string) (m : Env -> Z)
  (ps : list (string * (Env -> Z))) (w : World Env) :
  pending w = (k, m) :: ps ->
  exists w1 : World Env,
    measureResolved platformIsWeb env 0 w = Some w1 /\
    heap w1 = match getField (heap w) (fields (buffered w)) k with
              | Some (r, _) => assign_yOffset r (m env + webAdjustmentOf w) (heap w)
              | None => heap w
              end /\
    pending w1 = ps /\
    validatorState w1 = validatorState w /\
    buffered w1 = buffered w /\
    scrollYRef w1 = scrollYRef w.
Proof.
  intros Hp. unfold measureResolved. rewrite Hp. cbn [lookup list_lookup].
  eexists. split; [reflexivity|].
  unfold updateFieldOffsetY. rewrite setValidatorState_updater.
  unfold validatorState, buffered.
  cbn [heap hook pending scrollYRef BufferedState.state
       BufferedState.stateBufferRef take drop app].
  rewrite spread_id.
  destruct (getField (heap w) (fields (BufferedState.stateBufferRef (hook w))) k)
    as [[r f]|]; cbn [fst snd]; auto 10.
Qed.

(** All pending measurements resolve, first in first out, when each was
    asked of the record the buffered state now holds under its name: the
    records keep everything but their offsets, an offset that changes
    becomes what the record's own measurement gave, and it does change for
    the records the measurements were asked of. *)
Lemma measurements_resolve (ps : list (string * (Env -> Z))) :
  forall w : World Env,
    pending w = ps ->
    (forall (k : string) (m : Env -> Z),
        In (k, m) ps ->
        exists (r : ref) (f : ValidatedFieldState Env),
          getField (heap w) (fields (buffered w)) k = Some (r, f) /\
          measureYOffset f = m) ->
    exists w' : World Env,
      performAll platformIsWeb (repeat (DoMeasureResolved env 0) (length ps)) w
      = Some w' /\
      pending w' = [] /\
      validatorState w' = validatorState w /\
      buffered w' = buffered w /\
      fieldsObjects (heap w') = fieldsObjects (heap w) /\
      length (fieldStates (heap w')) = length (fieldStates (heap w)) /\
      forall (r : ref) (f : ValidatedFieldState Env),
        fieldStates (heap w) !! r = Some f ->
        exists f' : ValidatedFieldState Env,
          fieldStates (heap w') !! r = Some f' /\
          valid f' = valid f /\
          measureYOffset f' = measureYOffset f /\
          validateCallback f' = validateCallback f /\
          (yOffset f' = yOffset f \/
           yOffset f' = measureYOffset f env + webAdjustmentOf w) /\
          ((exists (k : string) (m : Env -> Z),
               In (k, m) ps /\
               prop_get k (fieldsAt (heap w) (fields (buffered w))) = Some r) ->
           yOffset f' = measureYOffset f env + webAdjustmentOf w).
Proof.
  induction ps as [|[k m] ps IH]; intros w Hp Hasked.
  - exists w. cbn [length repeat performAll].
    split; [reflexivity|]. split; [exact Hp|].
    split; [reflexivity|]. split; [reflexivity|].
    split; [reflexivity|]. split; [reflexivity|].
    intros r f Hr. exists f. split; [exact Hr|].
    split; [reflexivity|]. split; [reflexivity|]. split; [reflexivity|].
    split; [left; reflexivity|]. intros (k & m & [] & _).
  - destruct (measureResolved_head k m ps w Hp)
      as (w1 & Hstep & Hheap1 & Hp1 & Hs1 & Hb1 & Hy1).
    destruct (Hasked k m (or_introl eq_refl)) as (r0 & f0 & Hg0 & Hm0).
    rewrite Hg0 in Hheap1.
    assert (Hasked1 : forall (k' : string) (m' : Env -> Z),
               In (k', m') ps ->
               exists (r : ref) (f : ValidatedFieldState Env),
                 getField (heap w1) (fields (buffered w1)) k' = Some (r, f) /\
                 measureYOffset f = m').
    { intros k' m' Hin.
      destruct (Hasked k' m' (or_intror Hin)) as (r & f & Hg & Hm).
      rewrite Hheap1, Hb1, getField_assign_yOffset, Hg.
      destruct (decide (r0 = r)); eexists _, _; (split; [reflexivity|]);
        [cbn [set_yOffset measureYOffset] | ]; exact Hm. }
    destruct (IH w1 Hp1 Hasked1)
      as (w' & Hrun & Hp' & Hs' & Hb' & Hobj' & Hlen' & Hrec').
    exists w'. cbn [length repeat performAll perform]. rewrite Hstep.
    split; [exact Hrun|]. split; [exact Hp'|].
    split; [congruence|]. split; [congruence|].
    assert (Hobj1 : fieldsObjects (heap w1) = fieldsObjects (heap w))
      by (rewrite Hheap1; reflexivity).
    split; [congruence|].
    split; [rewrite Hlen', Hheap1; apply length_alter|].
    intros r f Hr.
    set (f1 := if decide (r0 = r) then set_yOffset (m env + webAdjustmentOf w) f
               else f).
    assert (Hr1 : fieldStates (heap w1) !! r = Some f1).
    { rewrite Hheap1. unfold assign_yOffset, f1. cbn [fieldStates].
      destruct (decide (r0 = r)) as [->|Hne].
      - rewrite list_lookup_alter_eq, Hr. reflexivity.
      - rewrite list_lookup_alter_ne by exact Hne. exact Hr. }
    assert (Hf1 : valid f1 = valid f /\ measureYOffset f1 = measureYOffset f /\
                  validateCallback f1 = validateCallback f)
      by (unfold f1; destruct (decide (r0 = r)); auto).
    destruct Hf1 as (Hv1 & Hm1 & Hc1).
    assert (Hsame : r0 = r -> f = f0).
    { intros ->. apply getField_record in Hg0. destruct Hg0 as [_ Hg0].
      congruence. }
    assert (Hoff1 : yOffset f1 = yOffset f \/
                    yOffset f1 = measureYOffset f env + webAdjustmentOf w).
    { unfold f1. destruct (decide (r0 = r)) as [Heq|_]; [right|left; reflexivity].
      cbn [set_yOffset yOffset]. rewrite (Hsame Heq), Hm0. reflexivity. }
    assert (Hfs1 : fieldsAt (heap w1) (fields (buffered w1))
                   = fieldsAt (heap w) (fields (buffered w)))
      by (unfold fieldsAt; rewrite Hobj1, Hb1; reflexivity).
    destruct (Hrec' r f1 Hr1) as (f' & Hr' & Hv' & Hm' & Hc' & Hoff' & Hhit').
    rewrite Hy1, Hm1 in Hoff', Hhit'. rewrite Hfs1 in Hhit'.
    exists f'. split; [exact Hr'|].
    split; [congruence|]. split; [congruence|]. split; [congruence|].
    split.
    + destruct Hoff' as [Hoff'|Hoff']; [|right; exact Hoff'].
      rewrite Hoff'. exact Hoff1.
    + intros (k' & m' & [[= -> ->]|Hin] & Hget).
      * apply getField_record in Hg0. destruct Hg0 as [Hk0 _].
        assert (Heq : r0 = r) by congruence.
        destruct Hoff' as [Hoff'|Hoff']; [|exact Hoff'].
        rewrite Hoff'. unfold f1. destruct (decide (r0 = r)); [|contradiction].
        cbn [set_yOffset yOffset]. rewrite (Hsame Heq), Hm0. reflexivity.
      * apply Hhit'. exists k', m'. auto.
Qed.

(** X13: the measurements [validateForm] asks for.  On a well-formed,
    ready form with no measurement outstanding, the promises
    [validateForm] leaves all resolve, and once they have, every
    registered record holds as offset what its own [measureYOffset]
    returned (plus, on the web, [scrollYRef.current] or 0),
    and as flag what its predicate returned during the call; the
    committed state still points to the same fields. *)
Theorem validateForm_measurements_settle_offsets (w : World Env) :
  wfWorld w ->
  ready (validatorState w) = true ->
  pending w = [] ->
  exists w' : World Env,
    performAll platformIsWeb
      (repeat (DoMeasureResolved env 0)
              (length (pending (snd (validateForm env w)))))
      (snd (validateForm env w))
    = Some w' /\
    pending w' = [] /\
    validatorState w' = validatorState w /\
    forall (name : string) (r : ref) (f : ValidatedFieldState Env),
      getField (heap w') (fields (validatorState w)) name = Some (r, f) ->
      yOffset f = measureYOffset f env + webAdjustmentOf w /\
      valid f = validateCallback f env.
Proof.
  intros Hw Hready Hnone. pose proof Hw as (Hwf & _).
  destruct (wfObject_fieldsAt (heap w) (fields (validatorState w)) Hwf)
    as [Hnd _].
  destruct (validateForm_ready_heap env w Hready) as (_ & Hheap & Hst & Hbuf).
  destruct (validateForm_ready env w Hready) as (hpR & _ & Heq).
  assert (Hpend : pending (snd (validateForm env w)) = measureYOffsets w).
  { rewrite Heq. cbn [snd]. rewrite setValidatorState_updater.
    cbn [pending]. rewrite Hnone. reflexivity. }
  assert (Hscroll : scrollYRef (snd (validateForm env w)) = scrollYRef w).
  { rewrite Heq. cbn [snd]. rewrite setValidatorState_updater. reflexivity. }
  clear Heq hpR.
  unfold registeredNames in Hheap.
  destruct (validateForm_fold env (fields (validatorState w)) (heap w)
              (keys (fieldsAt (heap w) (fields (validatorState w))))
              true (heap w) (validOnly_refl _)) as [_ Hvo].
  rewrite <- Hheap in Hvo.
  pose proof (validateFold_flags env (fields (validatorState w)) (heap w))
    as Hflags.
  rewrite <- Hheap in Hflags.
  set (wv := snd (validateForm env w)) in *.
  assert (Hasked : forall (k : string) (m : Env -> Z),
             In (k, m) (pending wv) ->
             exists (r : ref) (f : ValidatedFieldState Env),
               getField (heap wv) (fields (buffered wv)) k = Some (r, f) /\
               measureYOffset f = m).
  { intros k m Hin. rewrite Hpend in Hin. unfold measureYOffsets in Hin.
    apply in_flat_map in Hin. destruct Hin as ([k0 [f0|]] & Hin & Hkm);
      cbn [fst snd] in Hkm; [|destruct Hkm].
    destruct Hkm as [[= -> <-]|[]].
    apply (entries_In _ _ _ _ Hnd) in Hin. destruct Hin as (r & Hg).
    pose proof (getField_validOnly _ _ (fields (validatorState w)) k Hvo) as Hv.
    rewrite Hg in Hv. destruct Hv as (f' & Hg' & _ & Hm & _).
    exists r, f'. rewrite Hbuf. auto. }
  destruct (measurements_resolve (pending wv) wv eq_refl Hasked)
    as (w' & Hrun & Hp' & Hs' & Hb' & Hobj' & Hlen' & Hrec').
  exists w'. split; [exact Hrun|]. split; [exact Hp'|].
  split; [congruence|].
  intros name r f Hg. apply getField_record in Hg. destruct Hg as [Hk Hr].
  assert (Hat : fieldsAt (heap w') (fields (validatorState w))
                = fieldsAt (heap wv) (fields (validatorState w)))
    by (unfold fieldsAt; rewrite Hobj'; reflexivity).
  rewrite Hat in Hk.
  assert (Hlt : (r < length (fieldStates (heap wv)))%nat)
    by (rewrite <- Hlen'; apply lookup_lt_Some in Hr; exact Hr).
  apply lookup_lt_is_Some in Hlt. destruct Hlt as (fv & Hrv).
  assert (Hgv : getField (heap wv) (fields (validatorState w)) name
                = Some (r, fv))
    by (unfold getField; rewrite Hk, Hrv; reflexivity).
  destruct (Hrec' r fv Hrv) as (f' & Hr' & Hv' & Hm' & Hc' & _ & Hhit').
  rewrite Hr in Hr'. injection Hr' as <-.
  rewrite Hscroll, Hbuf in Hhit'. split.
  - rewrite Hm'. apply Hhit'.
    exists name, (measureYOffset fv). split; [|exact Hk].
    rewrite Hpend. unfold measureYOffsets. apply in_flat_map.
    pose proof (getField_validOnly _ _ (fields (validatorState w)) name Hvo)
      as Hback.
    destruct (getField (heap w) (fields (validatorState w)) name)
      as [[r0 f0]|] eqn:G0; [|congruence].
    destruct Hback as (f1 & Hg1 & _ & Hm1 & _).
    rewrite Hgv in Hg1. injection Hg1 as <- <-.
    exists (name, Some f0). split.
    + apply (entries_In _ _ _ _ Hnd). eauto.
    + cbn [fst snd]. left. rewrite Hm1. reflexivity.
  - rewrite Hv', Hc'. exact (Hflags name r fv Hgv).
Qed.

End Measurements.

(* ===================================================================== *)
(** ** The field owner: ValidatedAny *)
(* ===================================================================== *)

Section FieldOwner.

Import Utils.

Variable trim : string -> string.

Lemma isEmpty_string (s : string) :
  isEmpty (JSString s) true = match s with EmptyString => true | _ => false end.
Proof. reflexivity. Qed.

(** X14: what [validate] of [ValidatedAny] returns.  An optional field
    ([required === false]) whose value is empty is valid and a custom
    [validate] is not consulted; in every other case a custom [validate]
    decides alone.  Without one: a string that is not the empty string is
    valid exactly when something is left after [trim], whether the field is
    optional or not, so an optional field that holds only blanks is
    invalid; a number, a boolean and a Date are always valid, zero and
    [false] included; any other value is valid when the field is optional
    or [isEmpty] with the flag set says it is not empty. *)
Theorem ValidatedAny_validate_by_cases (props : ValidatedAny.Props) :
  (ValidatedAny.required props = Some false ->
   isEmpty (ValidatedAny.value props) true = true ->
   ValidatedAny.validate trim props = true) /\
  (forall custom : JSValue -> bool,
      ValidatedAny.validateProp props = Some custom ->
      ValidatedAny.required props <> Some false \/
      isEmpty (ValidatedAny.value props) true = false ->
      ValidatedAny.validate trim props = custom (ValidatedAny.value props)) /\
  (ValidatedAny.validateProp props = None ->
   (forall s : string,
       ValidatedAny.value props = JSString s ->
       s <> EmptyString ->
       ValidatedAny.validate trim props
       = match trim s with EmptyString => false | _ => true end) /\
   ((exists n, ValidatedAny.value props = JSNumber n) \/
    (exists b, ValidatedAny.value props = JSBoolean b) \/
    ValidatedAny.value props = JSDate ->
    ValidatedAny.validate trim props = true) /\
   ((forall s, ValidatedAny.value props <> JSString s) ->
    ValidatedAny.validate trim props
    = match ValidatedAny.required props with
      | Some false => true
      | _ => negb (isEmpty (ValidatedAny.value props) true)
      end)).
Proof.
  unfold ValidatedAny.validate. split; [|split].
  - intros -> ->. reflexivity.
  - intros custom -> Hcase.
    destruct (ValidatedAny.required props) as [[|]|];
      cbn [andb]; try reflexivity.
    destruct Hcase as [Hreq| ->]; [contradiction | reflexivity].
  - intros ->. split; [|split].
    + intros s -> Hs. rewrite !isEmpty_string.
      destruct s as [|ch rest]; [contradiction|].
      rewrite andb_false_r. destruct (trim (String ch rest)); reflexivity.
    + intros [(n & ->)|[(b & ->)| ->]]; cbn [isEmpty];
        rewrite andb_false_r; reflexivity.
    + intros Hnostring.
      destruct (ValidatedAny.value props) as [| | | | |s| | | | |] eqn:V;
        try (exfalso; exact (Hnostring s eq_refl));
        destruct (ValidatedAny.required props) as [[|]|]; cbn [andb];
        try reflexivity;
        destruct (isEmpty _ true); reflexivity.
Qed.

(** Blanks only: invalid even when the field is optional, while the empty
    string is valid then. *)
Example optional_blank_field_is_invalid :
  ValidatedAny.validate trimSpaces
    {| ValidatedAny.name := "note"; ValidatedAny.required := Some false;
       ValidatedAny.value := JSString "   ";
       ValidatedAny.validateProp := None;
       ValidatedAny.disableAutoValidation := false |} = false /\
  ValidatedAny.validate trimSpaces
    {| ValidatedAny.name := "note"; ValidatedAny.required := Some false;
       ValidatedAny.value := JSString EmptyString;
       ValidatedAny.validateProp := None;
       ValidatedAny.disableAutoValidation := false |} = true.
Proof. split; reflexivity. Qed.

(** X15: the effect of [ValidatedAny] that validates on a change of the
    value acts on [isReady.current] as the last render left it.  When that
    is [false], or validation on change is disabled by the form or by the
    field, it does nothing.  Otherwise it calls [validateField] in the
    world it runs in: if the committed registry holds the name there, the
    stored flag is compared with the predicate's outcome and only a
    difference causes one buffered write; if the name has been deleted
    since the render ([removeField] deletes in place), the call logs the
    missing field and changes nothing else; under a name inherited from
    [Object.prototype], for which [isReady.current] is always [true], it
    throws.  Run in the world its render saw, under a name that is not
    inherited, the effect logs nothing. *)
Theorem autoValidateEffect_logs_only_after_removal
  (disableValidateFieldOnChange : bool) (props : ValidatedAny.Props)
  (isReadyCurrent : bool) (env : ValidatedAny.Owners)
  (w : World ValidatedAny.Owners) :
  (isReadyCurrent = false \/ disableValidateFieldOnChange = true \/
   ValidatedAny.disableAutoValidation props = true ->
   ValidatedAny.autoValidateEffect disableValidateFieldOnChange props
     isReadyCurrent env w = w) /\
  (isReadyCurrent = true ->
   disableValidateFieldOnChange = false ->
   ValidatedAny.disableAutoValidation props = false ->
   (forall (r : ref) (f : ValidatedFieldState ValidatedAny.Owners),
       getField (heap w) (fields (validatorState w)) (ValidatedAny.name props)
       = Some (r, f) ->
       (valid f = validateCallback f env ->
        ValidatedAny.autoValidateEffect disableValidateFieldOnChange props
          isReadyCurrent env w = w) /\
       (valid f <> validateCallback f env ->
        effects (ValidatedAny.autoValidateEffect disableValidateFieldOnChange
                   props isReadyCurrent env w)
        = effects w ++ [SetValidatorState])) /\
   (getField (heap w) (fields (validatorState w)) (ValidatedAny.name props)
    = None ->
    (inheritedName (ValidatedAny.name props) = false ->
     ValidatedAny.autoValidateEffect disableValidateFieldOnChange props
       isReadyCurrent env w
     = emit (ConsoleLog "Trying to validate non-existing field!") w) /\
    (inheritedName (ValidatedAny.name props) = true ->
     ValidatedAny.autoValidateEffect disableValidateFieldOnChange props
       isReadyCurrent env w
     = emit (Throw "TypeError") w))) /\
  (inheritedName (ValidatedAny.name props) = false ->
   effects (ValidatedAny.autoValidateEffect disableValidateFieldOnChange props
              (ValidatedAny.isReady props w) env w) = effects w \/
   effects (ValidatedAny.autoValidateEffect disableValidateFieldOnChange props
              (ValidatedAny.isReady props w) env w)
   = effects w ++ [SetValidatorState]).
Proof.
  unfold ValidatedAny.autoValidateEffect. split; [|split].
  - intros [-> | [-> | ->]]; [reflexivity | |].
    + destruct isReadyCurrent; reflexivity.
    + destruct isReadyCurrent, disableValidateFieldOnChange; reflexivity.
  - intros -> -> ->. cbn [negb]. unfold validateField. split.
    + intros r f ->. split.
      * intros ->. rewrite eqb_reflx. reflexivity.
      * intros Hne.
        destruct (Bool.eqb (valid f) (validateCallback f env)) eqn:E;
          [apply eqb_prop in E; contradiction|].
        rewrite setValidatorState_updater. reflexivity.
    + intros ->. split; intros ->; reflexivity.
  - intros Hown. unfold ValidatedAny.isReady, validateField.
    destruct (getField (heap w) (fields (validatorState w))
                (ValidatedAny.name props)) as [[r f]|];
      [|rewrite Hown; left; reflexivity].
    cbn [negb]. destruct disableValidateFieldOnChange; [left; reflexivity|].
    destruct (ValidatedAny.disableAutoValidation props); cbn [negb];
      [left; reflexivity|].
    destruct (Bool.eqb (valid f) (validateCallback f env));
      [left; reflexivity|].
    right. rewrite setValidatorState_updater. reflexivity.
Qed.

(** A run in which the effect logs: the render sees field [a] committed,
    then a cleanup removes [a] (in place, the committed state shares the
    fields object), then the effect runs. *)
Example autoValidateEffect_logs_after_cleanup :
  exists rendered : World ValidatedAny.Owners,
    performAll false
      [ DoAddField "a" true
          (fun env : ValidatedAny.Owners => ValidatedAny.validate trimSpaces (env "a"%string))
          (fun _ => 0);
        DoMountEffect; DoTick 50; DoTimerFires ] initialWorld
    = Some rendered /\
    ValidatedAny.isReady
      {| ValidatedAny.name := "a"; ValidatedAny.required := None;
         ValidatedAny.value := JSString "x";
         ValidatedAny.validateProp := None;
         ValidatedAny.disableAutoValidation := false |} rendered = true /\
    effects
      (ValidatedAny.autoValidateEffect false
         {| ValidatedAny.name := "a"; ValidatedAny.required := None;
            ValidatedAny.value := JSString "x";
            ValidatedAny.validateProp := None;
            ValidatedAny.disableAutoValidation := false |}
         true
         (fun _ =>
            {| ValidatedAny.name := "a"; ValidatedAny.required := None;
               ValidatedAny.value := JSString "x";
               ValidatedAny.validateProp := None;
               ValidatedAny.disableAutoValidation := false |})
         (removeField "a" rendered))
    = effects rendered
      ++ [SetValidatorState; ConsoleLog "Trying to validate non-existing field!"].
Proof. eexists. split; [reflexivity|]. split; reflexivity. Qed.

End FieldOwner.

(* ===================================================================== *)
(** ** The further properties on concrete runs *)
(* ===================================================================== *)

Section HookRunSamples.

Import BufferedState.

Local Abbreviation sampleBurst := (Write 0 (NewValue 1) :: burstRest).

(** X1 on the sample burst, before any timer has fired. *)
Lemma hook_state_follows_buffer_witness :
  run 50 sampleBurst (mounted 0 tt 0) = Some burstEnd /\
  stateBufferRef (hook burstEnd)
  = fst (foldWrites sampleBurst (0, tt)) /\
  state (hook burstEnd) = List.last (commits burstEnd) 0 /\
  (commitTimeoutRef (hook burstEnd) = None ->
   state (hook burstEnd) = stateBufferRef (hook burstEnd)) /\
  (length (commits burstEnd) <= writes sampleBurst)%nat.
Proof.
  split; [reflexivity|].
  exact (hook_state_follows_buffer 50 0 tt 0
           sampleBurst burstEnd eq_refl).
Defined.

(** X2 on the sample burst followed by the timer callback at 70. *)
Lemma timeout_commits_latest_buffer_witness :
  exists m : Machine Z unit,
    run 50 (sampleBurst ++ [Timeout 70]) (mounted 0 tt 0)
    = Some m /\
    lastWrite 0 sampleBurst + Z.max 50 0 <= 70 /\
    (0 < writes sampleBurst)%nat /\
    state (hook m) = fst (foldWrites sampleBurst (0, tt)) /\
    commitTimeoutRef (hook m) = None.
Proof.
  eexists. split; [reflexivity|].
  exact (timeout_commits_latest_buffer_not_early 50 0 tt 0
           sampleBurst 70 _ eq_refl).
Defined.

End HookRunSamples.

Section FormRunSamples.

(** Every sample form is well formed. *)
Lemma after_wf (acts : list (Action unit)) : wfWorld (after acts).
Proof.
  unfold after.
  destruct (performAll false acts initialWorld) as [w|] eqn:E;
    [|exact initialWorld_wf].
  exact (performAll_wf false acts initialWorld w E initialWorld_wf).
Qed.

Lemma oneField_wf : wfWorld oneField.
Proof. apply after_wf. Qed.

Lemma unmeasuredForm_wf : wfWorld unmeasuredForm.
Proof. apply after_wf. Qed.

(** X5 on the mounted form with two fields. *)
Lemma reachable_worlds_witness :
  performAll false
    [ DoAddField "a" true failing (measuresAt 0);
      DoAddField "b" true passing (measuresAt 0);
      DoMountEffect; DoTick 50; DoTimerFires ] initialWorld
  = Some mountedForm /\
  wfWorld mountedForm /\
  List.NoDup (keys (fieldsAt (heap mountedForm) (fields (validatorState mountedForm)))) /\
  List.NoDup (keys (fieldsAt (heap mountedForm) (fields (buffered mountedForm)))) /\
  (forall name : string,
      In name (keys (fieldsAt (heap mountedForm)
                              (fields (validatorState mountedForm)))) ->
      exists (r : ref) (f : ValidatedFieldState unit),
        getField (heap mountedForm) (fields (validatorState mountedForm)) name
        = Some (r, f)) /\
  (forall name : string,
      In name (keys (fieldsAt (heap mountedForm) (fields (buffered mountedForm)))) ->
      exists (r : ref) (f : ValidatedFieldState unit),
        getField (heap mountedForm) (fields (buffered mountedForm)) name
        = Some (r, f)) /\
  fieldsAt (heap mountedForm) O = [].
Proof.
  split; [reflexivity|].
  exact (reachable_worlds_are_well_formed false
           [ DoAddField "a" true failing (measuresAt 0);
             DoAddField "b" true passing (measuresAt 0);
             DoMountEffect; DoTick 50; DoTimerFires ] mountedForm eq_refl).
Defined.

(** X6 on the mounted form: field [a] was registered as valid and fails
    its predicate, and after [validateForm] its record says so. *)
Lemma validateForm_writes_outcomes_back_witness :
  ready (validatorState mountedForm) = true /\
  getField (heap (snd (validateForm tt mountedForm)))
           (fields (validatorState mountedForm)) "a"
  = Some (O, mkField false 0 (measuresAt 0) failing) /\
  valid (mkField false 0 (measuresAt 0) failing)
  = validateCallback (mkField false 0 (measuresAt 0) failing) tt.
Proof.
  split; [reflexivity|]. split; [reflexivity|].
  exact (validateForm_writes_outcomes_back tt mountedForm eq_refl "a" O
           (mkField false 0 (measuresAt 0) failing) eq_refl).
Defined.

(** X10 on the form with the committed field [a], when a field named
    [1] registers: an array index, which [Object.keys] lists first. *)
Lemma addField_copies_on_write_witness :
  wfWorld oneField /\
  getField (heap oneField) (fields (validatorState oneField)) "1" = None /\
  (inheritedName "1"%string = true ->
   addField "1"%string true passing (measuresAt 7) oneField
   = emit (ConsoleWarn (duplicateWarning "1"%string)) oneField) /\
  (inheritedName "1"%string = false ->
   validatorState (addField "1"%string true passing (measuresAt 7) oneField) = validatorState oneField /\
   ready (buffered (addField "1"%string true passing (measuresAt 7) oneField))
   = ready (buffered oneField) /\
   fields (buffered (addField "1"%string true passing (measuresAt 7) oneField))
   = length (fieldsObjects (heap oneField)) /\
   (forall (fs : ref) (n : string),
       (fs < length (fieldsObjects (heap oneField)))%nat ->
       fieldsAt (heap (addField "1"%string true passing (measuresAt 7) oneField)) fs
       = fieldsAt (heap oneField) fs /\
       getField (heap (addField "1"%string true passing (measuresAt 7) oneField)) fs n
       = getField (heap oneField) fs n) /\
   getField (heap (addField "1"%string true passing (measuresAt 7) oneField))
            (fields (buffered (addField "1"%string true passing (measuresAt 7) oneField))) "1"%string
   = Some (length (fieldStates (heap oneField)),
           {| valid := true; yOffset := 0;
              measureYOffset := (measuresAt 7); validateCallback := passing |}) /\
   (forall n : string,
       n <> "1"%string ->
       getField (heap (addField "1"%string true passing (measuresAt 7) oneField))
                (fields (buffered (addField "1"%string true passing (measuresAt 7) oneField))) n
       = getField (heap oneField) (fields (buffered oneField)) n) /\
   (forall k : string,
       In k (keys (fieldsAt (heap (addField "1"%string true passing (measuresAt 7) oneField))
                            (fields (buffered
                                       (addField "1"%string true passing (measuresAt 7) oneField)))))
       <-> k = "1"%string \/ In k (keys (fieldsAt (heap oneField) (fields (buffered oneField))))) /\
   (prop_get "1"%string (fieldsAt (heap oneField) (fields (buffered oneField))) <> None ->
    keys (fieldsAt (heap (addField "1"%string true passing (measuresAt 7) oneField))
                   (fields (buffered (addField "1"%string true passing (measuresAt 7) oneField))))
    = keys (fieldsAt (heap oneField) (fields (buffered oneField)))) /\
   (prop_get "1"%string (fieldsAt (heap oneField) (fields (buffered oneField))) = None ->
    (exists before after : list string,
        keys (fieldsAt (heap oneField) (fields (buffered oneField))) = before ++ after /\
        keys (fieldsAt (heap (addField "1"%string true passing (measuresAt 7) oneField))
                       (fields (buffered
                                  (addField "1"%string true passing (measuresAt 7) oneField))))
        = before ++ "1"%string :: after /\
        (forall k, In k before -> listedBefore "1"%string k = false) /\
        match after with
        | k :: _ => listedBefore "1"%string k = true
        | [] => True
        end) /\
    (arrayIndex "1"%string = None ->
     keys (fieldsAt (heap (addField "1"%string true passing (measuresAt 7) oneField))
                    (fields (buffered
                               (addField "1"%string true passing (measuresAt 7) oneField))))
     = keys (fieldsAt (heap oneField) (fields (buffered oneField))) ++ ["1"%string]))).
Proof.
  split; [exact oneField_wf|]. split; [reflexivity|].
  exact (addField_copies_on_write "1" true passing (measuresAt 7) oneField
           oneField_wf eq_refl).
Defined.

(** The keys of that run. *)
Example array_index_key_is_listed_first :
  keys (fieldsAt (heap (addField "1" true passing (measuresAt 7) oneField))
                 (fields (buffered
                            (addField "1" true passing (measuresAt 7) oneField))))
  = ["1"%string; "a"%string] /\
  keys (fieldsAt (heap (addField "b" true passing (measuresAt 7) oneField))
                 (fields (buffered
                            (addField "b" true passing (measuresAt 7) oneField))))
  = ["a"%string; "b"%string] /\
  addField "constructor" true passing (measuresAt 7) oneField
  = emit (ConsoleWarn (duplicateWarning "constructor")) oneField.
Proof. repeat split. Qed.


(** X12 on the form whose records still hold offset 0 when
    [validateForm] is called: the three measurements it asks for resolve
    before the commit, and the scroll goes to the measured offset of [b],
    100, less the default margin of 40. *)
Lemma failed_validateForm_scroll_witness :
  wfWorld unmeasuredForm /\
  ready (validatorState unmeasuredForm) = true /\
  Utils.getScrollableNode (Some scrollNode) = Some scrollNode /\
  hookValidateForm tt true useFormValidationContext unmeasuredForm
  = (false,
     {| queueScrollToInvalidFields := true; scrollCalls := [] |},
     validatedForm) /\
  forallb unprompted
    [ DoMeasureResolved tt 0; DoMeasureResolved tt 0;
      DoMeasureResolved tt 0; DoTick 200 ] = true /\
  performAll false
    [ DoMeasureResolved tt 0; DoMeasureResolved tt 0;
      DoMeasureResolved tt 0; DoTick 200 ] validatedForm
  = Some remeasuredForm /\
  timerFires remeasuredForm = Some committedForm /\
  validatorState committedForm = validatorState unmeasuredForm /\
  exists o : Z,
    (exists (name : string) (r : ref) (f : ValidatedFieldState unit),
        getField (heap committedForm) (fields (validatorState committedForm))
                 name = Some (r, f) /\
        validateCallback f tt = false /\ yOffset f = o) /\
    (forall (name : string) (r : ref) (f : ValidatedFieldState unit),
        getField (heap committedForm) (fields (validatorState committedForm))
                 name = Some (r, f) ->
        validateCallback f tt = false -> o <= yOffset f) /\
    queueEffect (Some scrollNode) 40 committedForm
      {| queueScrollToInvalidFields := true; scrollCalls := [] |}
    = {| queueScrollToInvalidFields := false;
         scrollCalls :=
           scrollCalls useFormValidationContext ++
           match Utils.scrollTo (Some scrollNode)
                   {| Utils.offset_x := None;
                      Utils.offset_y := Some (Z.max (o - 40) 0);
                      Utils.animated := true |} with
           | Some call => [(scrollNode, call)]
           | None => []
           end |} /\
    queueEffect (Some scrollNode) 40 committedForm
      (queueEffect (Some scrollNode) 40 committedForm
         {| queueScrollToInvalidFields := true; scrollCalls := [] |})
    = queueEffect (Some scrollNode) 40 committedForm
        {| queueScrollToInvalidFields := true; scrollCalls := [] |}.
Proof.
  split; [exact unmeasuredForm_wf|]. split; [reflexivity|].
  split; [reflexivity|]. split; [reflexivity|]. split; [reflexivity|].
  split; [reflexivity|]. split; [reflexivity|].
  exact (failed_validateForm_scrolls_to_topmost_failing_field false
           tt (Some scrollNode) scrollNode 40 useFormValidationContext
           {| queueScrollToInvalidFields := true; scrollCalls := [] |}
           unmeasuredForm validatedForm remeasuredForm committedForm
           [ DoMeasureResolved tt 0; DoMeasureResolved tt 0;
             DoMeasureResolved tt 0; DoTick 200 ]
           unmeasuredForm_wf eq_refl eq_refl eq_refl eq_refl eq_refl eq_refl).
Defined.

(** The scroll of that run, and the scroll when the commit comes before
    any measurement has resolved: then the records still hold offset 0. *)
Example scroll_after_failed_validation :
  (exists w : World unit,
      performAll false
        [ DoValidateForm tt; DoMeasureResolved tt 0; DoMeasureResolved tt 0;
          DoMeasureResolved tt 0; DoTick 200; DoTimerFires ] unmeasuredForm
      = Some w /\
      queueEffect (Some scrollNode) 40 w
        (snd (fst (hookValidateForm tt true useFormValidationContext
                     unmeasuredForm)))
      = {| queueScrollToInvalidFields := false;
           scrollCalls :=
             [(scrollNode, Utils.call_scrollTo None (Some 60) true)] |}) /\
  (exists w : World unit,
      performAll false [DoValidateForm tt; DoTick 200; DoTimerFires]
        unmeasuredForm
      = Some w /\
      queueEffect (Some scrollNode) 40 w
        (snd (fst (hookValidateForm tt true useFormValidationContext
                     unmeasuredForm)))
      = {| queueScrollToInvalidFields := false;
           scrollCalls :=
             [(scrollNode, Utils.call_scrollTo None (Some 0) true)] |}).
Proof. split; eexists; split; reflexivity. Qed.

(** X13 on the form whose offsets have not been measured, off the web. *)
Lemma validateForm_measurements_witness :
  wfWorld unmeasuredForm /\
  ready (validatorState unmeasuredForm) = true /\
  pending unmeasuredForm = [] /\
  exists w' : World unit,
    performAll false
      (repeat (DoMeasureResolved tt 0)
              (length (pending (snd (validateForm tt unmeasuredForm)))))
      (snd (validateForm tt unmeasuredForm))
    = Some w' /\
    pending w' = [] /\
    validatorState w' = validatorState unmeasuredForm /\
    forall (name : string) (r : ref) (f : ValidatedFieldState unit),
      getField (heap w') (fields (validatorState unmeasuredForm)) name
      = Some (r, f) ->
      yOffset f = measureYOffset f tt
                  + (if false
                     then match scrollYRef unmeasuredForm with
                          | Some y => y
                          | None => 0
                          end
                     else 0) /\
      valid f = validateCallback f tt.
Proof.
  split; [exact unmeasuredForm_wf|]. split; [reflexivity|]. split; [reflexivity|].
  exact (validateForm_measurements_settle_offsets false tt unmeasuredForm
           unmeasuredForm_wf eq_refl eq_refl).
Defined.

(** The offsets of that run, once the three measurements have resolved. *)
Example offsets_after_measurements :
  exists w : World unit,
    performAll false
      [ DoValidateForm tt; DoMeasureResolved tt 0;
        DoMeasureResolved tt 0; DoMeasureResolved tt 0 ] unmeasuredForm
    = Some w /\
    map (fun name =>
           option_map (fun p => (valid (snd p), yOffset (snd p)))
                      (getField (heap w) (fields (validatorState w)) name))
        ["a"%string; "b"%string; "c"%string]
    = [Some (false, 300); Some (false, 100); Some (true, 50)].
Proof. eexists. split; reflexivity. Qed.

(** X16 on the sample heap, where [a] at 300 and [b] at 100 are
    invalid. *)
Lemma scroll_call_has_y_only_witness :
  scrollToInvalidFields (Some scrollNode) 40 threeFields threeFieldsState
  = Some (scrollNode,
          {| Utils.offset_x := None; Utils.offset_y := Some 60;
             Utils.animated := true |}) /\
  Utils.getScrollableNode (Some scrollNode) = Some scrollNode /\
  exists y : Z,
    0 <= y /\
    {| Utils.offset_x := None; Utils.offset_y := Some 60;
       Utils.animated := true |}
    = {| Utils.offset_x := None; Utils.offset_y := Some y;
         Utils.animated := true |} /\
    (Utils.has_scrollTo scrollNode = true ->
     Utils.scrollTo (Some scrollNode)
       {| Utils.offset_x := None; Utils.offset_y := Some 60;
          Utils.animated := true |}
     = Some (Utils.call_scrollTo None (Some y) true)) /\
    (Utils.has_scrollTo scrollNode = false ->
     Utils.has_scrollToOffset scrollNode = true ->
     Utils.scrollTo (Some scrollNode)
       {| Utils.offset_x := None; Utils.offset_y := Some 60;
          Utils.animated := true |}
     = Some (Utils.call_scrollToOffset
               (if Utils.horizontal scrollNode then None else Some y) true)) /\
    (Utils.has_scrollTo scrollNode = false ->
     Utils.has_scrollToOffset scrollNode = false ->
     Utils.has_scrollResponderScrollTo scrollNode = true ->
     Utils.scrollTo (Some scrollNode)
       {| Utils.offset_x := None; Utils.offset_y := Some 60;
          Utils.animated := true |}
     = Some (Utils.call_scrollResponderScrollTo None (Some y) true)) /\
    (Utils.has_scrollTo scrollNode = false ->
     Utils.has_scrollToOffset scrollNode = false ->
     Utils.has_scrollResponderScrollTo scrollNode = false ->
     Utils.scrollTo (Some scrollNode)
       {| Utils.offset_x := None; Utils.offset_y := Some 60;
          Utils.animated := true |} = None).
Proof.
  split; [reflexivity|].
  exact (scroll_call_has_y_only (Some scrollNode) 40 threeFields
           threeFieldsState scrollNode _ eq_refl).
Defined.

End FormRunSamples.
